(** * spa-server: request resolution, content types and the content cache

    A shallow embedding of the request handler of [main.go] and of its
    extended variant (the one with [--load] and [precache]), and the
    properties of the written specification checked against it.  The
    start-up of the extended variant and the first variant of the handler
    are embedded as well, with properties read off the code.

    Go strings are byte strings: they are modelled by [string], whose
    characters are the 256 values of [ascii].  The two [sync.Map]s are
    finite maps keyed by strings.  Console logging (the [color] and
    [fmt.Printf] calls, and the [relPath] they print) has no influence on
    the response and is left out. *)

From Stdlib Require Import ZArith Lia Ascii DecimalString.
From Stdlib Require Init.Byte String.
From stdpp Require Import base option list gmap strings.

(** ** Strings *)

Module Strings.

(** [strings.HasPrefix(s, prefix)]. *)
Definition HasPrefix (s prefix : string) : bool := String.prefix prefix s.

(** [strings.Join(elems, "/")]. *)
Fixpoint JoinSlash (elems : list string) : string :=
  match elems with
  | [] => ""
  | [e] => e
  | e :: rest => e +:+ "/" +:+ JoinSlash rest
  end.

(** [strconv.Itoa] on a length (never negative). *)
Definition Itoa (n : nat) : string := NilZero.string_of_uint (Nat.to_uint n).

End Strings.
Export Strings.

(** ** Paths: the part of [path/filepath] the handler relies on (Unix) *)

Module Filepath.

Definition slash : ascii := "/"%char.
Definition dot : ascii := "."%char.

(** The elements of a path: the pieces between separators.  A path with
    [n] separators has [n + 1] elements, some of them possibly empty. *)
Fixpoint elements (path : string) : list string :=
  match path with
  | "" => [""]
  | String c rest =>
      if Ascii.eqb c slash then "" :: elements rest
      else match elements rest with
           | e :: es => String c e :: es
           | [] => [String c ""]
           end
  end.

(** One element read by [Clean].  [out] holds the elements written so
    far, the last one first.  An empty element and [.] are skipped; [..]
    removes the last written element when there is one that is not
    itself a leading [..]; at the start of a rooted path it is dropped,
    at the start of a relative path it is kept. *)
Definition clean_elem (rooted : bool) (out : list string) (e : string)
  : list string :=
  if String.eqb e "" then out
  else if String.eqb e "." then out
  else if String.eqb e ".." then
    match out with
    | last :: before =>
        if String.eqb last ".." then e :: out else before
    | [] => if rooted then [] else [e]
    end
  else e :: out.

Definition is_rooted (path : string) : bool :=
  match path with
  | String c _ => Ascii.eqb c slash
  | "" => false
  end.

(** [filepath.Clean]. *)
Definition Clean (path : string) : string :=
  if String.eqb path "" then "."
  else
    let rooted := is_rooted path in
    let out := fold_left (clean_elem rooted) (elements path) [] in
    if rooted then "/" +:+ JoinSlash (rev out)
    else match out with
         | [] => "."
         | _ => JoinSlash (rev out)
         end.

(** [filepath.Join(dir, path)]: the non-empty leading arguments are
    joined by a separator and the result is cleaned. *)
Definition Join (dir path : string) : string :=
  if negb (String.eqb dir "") then Clean (dir +:+ "/" +:+ path)
  else if negb (String.eqb path "") then Clean path
  else "".

(** [filepath.Ext]: scanning from the end, the suffix that starts at the
    last dot of the last element; empty when that element has no dot.
    [ext_scan] walks the reversed path and rebuilds the suffix in [acc]. *)
Fixpoint ext_scan (rpath : string) (acc : string) : string :=
  match rpath with
  | "" => ""
  | String c rest =>
      if Ascii.eqb c slash then ""
      else if Ascii.eqb c dot then String c acc
      else ext_scan rest (String c acc)
  end.

Definition Ext (path : string) : string := ext_scan (String.rev path) "".

End Filepath.
Export Filepath.

(** ** Data model *)

Abbreviation bytes := (list Byte.byte).

Record CacheEntry := {
  Content : bytes;
  ContentType : string;
}.

(** The parsed command line.  [Directory] is [args.Positional.Directory]
    after [filepath.Abs]; [LoadCache] exists in the extended variant only. *)
Record Arguments := {
  DefaultDoc : string;
  Port : Z;
  MemCache : bool;
  LoadCache : bool;
  Directory : string;
}.

Record Request := {
  Method : string;
  URLPath : string;
}.

Definition MethodOptions : string := "OPTIONS".
Definition MethodHead : string := "HEAD".
Definition MethodGet : string := "GET".
Definition StatusNotFound : Z := 404.
Definition StatusInternalServerError : Z := 500.
Definition octet_stream : string := "application/octet-stream".

(** What [os.Open] followed by [ioutil.ReadAll] does on a path. *)
Inductive FileState :=
| OpenFails (err : string)
| ReadFails (err : string)
| Readable (raw : bytes).

(** What lies outside the program: the file system and the two library
    look-ups [http.DetectContentType] and [mime.TypeByExtension]. *)
Record World := {
  fs : string -> FileState;
  DetectContentType : bytes -> string;
  TypeByExtension : string -> string;
}.

(** The two [sync.Map]s shared by all requests. *)
Record State := {
  cache : gmap string CacheEntry;
  types : gmap string string;
}.

(** The two handlers: [main.go], and the extended variant that consults
    the MIME registry and has the pre-cache loader. *)
Inductive Variant := MainGo | Extended.

(** The map [types] as [main] creates it. *)
Definition initial_types (v : Variant) : gmap string string :=
  match v with
  | MainGo =>
      <[".ico" := "image/x-icon"]>
      (<[".svg" := "image/svg+xml"]>
      (<[".html" := "text/html"]>
      (<[".css" := "text/css"]>
      (<[".js" := "application/javascript"]> ∅))))
  | Extended => ∅
  end.

Definition initial_state (v : Variant) : State :=
  {| cache := ∅; types := initial_types v |}.

(** Operations observed while a request is handled, in program order. *)
Inductive Event :=
| CacheLoad (key : string)
| CacheStore (key : string)
| Open (path : string)
| ReadAll (path : string)
| TypesLoad (ext : string)
| TypesStore (ext : string) (ty : string)
| MimeLookup (ext : string)
| Sniff (data : bytes).

(** Calls made on the [http.ResponseWriter]. *)
Inductive WriterCall :=
| WriteHeader (code : Z)
| HeaderAdd (key value : string)
| Write (body : bytes)
| HttpError (msg : string) (code : Z).

Record Result := {
  state : State;
  trace : list Event;
  calls : list WriterCall;
}.

(** ** Content type of a file that was read *)

(** [raw[:length]] with [length] capped at 512. *)
Definition sniff_window (raw : bytes) : bytes :=
  let length := List.length raw in
  let length := if Nat.ltb 512 length then 512%nat else length in
  firstn length raw.

Section ContentType.
Context (w : World).

(** [main.go], lines 132-148.  Inside the [if !ok] block the sniffed type
    is bound by [:=] to a new variable, also called [contentType]; the
    variable declared by [var contentType string], which is the one
    stored and sent, is assigned in the [else] branch only. *)
Definition contentType_main (types : gmap string string) (ext : string)
    (raw : bytes) : string * gmap string string * list Event :=
  let contentType := "" in
  match types !! ext with
  | None =>
      let data := sniff_window raw in
      let contentType' := DetectContentType w data in
      if negb (String.eqb contentType' octet_stream)
         && negb (Nat.eqb (String.length ext) 0)
      then (contentType, <[ext := contentType']> types,
            [TypesLoad ext; Sniff data; TypesStore ext contentType'])
      else (contentType, types, [TypesLoad ext; Sniff data])
  | Some t => (t, types, [TypesLoad ext])
  end.

(** The extended variant, lines 147-170 (and again in [precache]). *)
Definition contentType_extended (types : gmap string string) (ext : string)
    (raw : bytes) : string * gmap string string * list Event :=
  let contentType := "" in
  if Nat.ltb 0 (String.length ext) then
    match types !! ext with
    | None =>
        let contentType := TypeByExtension w ext in
        let '(contentType, sniffed) :=
          if Nat.eqb (String.length contentType) 0
          then (DetectContentType w (sniff_window raw),
                [Sniff (sniff_window raw)])
          else (contentType, []) in
        if negb (String.eqb contentType octet_stream)
        then (contentType, <[ext := contentType]> types,
              [TypesLoad ext; MimeLookup ext] ++ sniffed
                ++ [TypesStore ext contentType])
        else (contentType, types,
              [TypesLoad ext; MimeLookup ext] ++ sniffed)
    | Some t => (t, types, [TypesLoad ext])
    end
  else (contentType, types, []).

Definition contentType_of (v : Variant) :=
  match v with
  | MainGo => contentType_main
  | Extended => contentType_extended
  end.

End ContentType.

(** ** The request handler *)

Section Handler.
Context (v : Variant) (w : World) (args : Arguments).

(** [defaultDoc], computed once by [main]. *)
Definition defaultDoc : string := Join (Directory args) (DefaultDoc args).

(** The start-up check: [main] panics with "default doc is not in the
    directory" unless this holds. *)
Definition startup_ok : bool := HasPrefix defaultDoc (Directory args).

(** Lines 71-80: from the URL path to the first [fullpath]. *)
Definition resolve_path (path : string) : string :=
  let path := if String.eqb path "/" then DefaultDoc args else path in
  let fullpath := Join (Directory args) path in
  if negb (HasPrefix fullpath (Directory args)) then defaultDoc
  else fullpath.

(** The headers and body of a served file. *)
Definition respond (method contentType : string) (content : bytes)
  : list WriterCall :=
  [HeaderAdd "Content-Type" contentType;
   HeaderAdd "Content-Length" (Itoa (List.length content))]
  ++ (if negb (String.eqb method MethodHead) then [Write content] else []).

(** One pass from the label [again] to a [return] or to [goto again]. *)
Inductive Step :=
| Return (r : Result)
| GotoAgain (fullpath : string) (sofar : list Event).

Definition cache_lookup (s : State) (fullpath : string)
  : option CacheEntry * list Event :=
  if MemCache args then (cache s !! fullpath, [CacheLoad fullpath])
  else (None, []).

Definition attempt (s : State) (method fullpath : string) : Step :=
  let '(cached, looked) := cache_lookup s fullpath in
  match cached with
  | Some entry =>
      Return {| state := s; trace := looked;
                calls := respond method (ContentType entry) (Content entry) |}
  | None =>
      match fs w fullpath with
      | OpenFails err =>
          if negb (String.eqb fullpath defaultDoc)
          then GotoAgain defaultDoc (looked ++ [Open fullpath])
          else Return {| state := s; trace := looked ++ [Open fullpath];
                         calls := [HttpError err StatusNotFound] |}
      | ReadFails _ =>
          Return {| state := s;
                    trace := looked ++ [Open fullpath; ReadAll fullpath];
                    calls := [HttpError "unable to read file"
                                        StatusInternalServerError] |}
      | Readable raw =>
          let '(contentType, types', resolved) :=
            contentType_of w v (types s) (Ext fullpath) raw in
          let entry := {| Content := raw; ContentType := contentType |} in
          let '(cache', stored) :=
            if MemCache args
            then (<[fullpath := entry]> (cache s), [CacheStore fullpath])
            else (cache s, []) in
          Return {| state := {| cache := cache'; types := types' |};
                    trace := looked ++ [Open fullpath; ReadAll fullpath]
                               ++ resolved ++ stored;
                    calls := respond method contentType raw |}
      end
  end.

Definition after (sofar : list Event) (r : Result) : Result :=
  {| state := state r; trace := sofar ++ trace r; calls := calls r |}.

(** The loop made by [goto again]; [fuel] bounds the number of passes. *)
Fixpoint serve (fuel : nat) (s : State) (method fullpath : string)
    (sofar : list Event) : option Result :=
  match fuel with
  | O => None
  | S fuel =>
      match attempt s method fullpath with
      | Return r => Some (after sofar r)
      | GotoAgain fullpath sofar' =>
          serve fuel s method fullpath (sofar ++ sofar')
      end
  end.

(** The handler registered on ["/"].  Two passes are enough, see
    [serve_enough]. *)
Definition handler (s : State) (r : Request) : option Result :=
  if String.eqb (Method r) MethodOptions
  then Some {| state := s; trace := []; calls := [WriteHeader 200] |}
  else serve 2 s (Method r) (resolve_path (URLPath r)) [].

End Handler.

(** ** The pre-cache loader (extended variant) *)

Inductive Outcome (A : Type) :=
| Failed (err : string)
| Got (a : A).
Arguments Failed {A} err.
Arguments Got {A} a.

(** A directory as [os.ReadDir] and [ioutil.ReadFile] show it: an entry is
    a directory ([IsDir]) with the outcome of listing it, or anything else
    with the outcome of reading it. *)
Unset Elimination Schemes.
Inductive Node :=
| File (name : string) (content : Outcome bytes)
| Dir (name : string) (listing : Outcome (list Node)).
Set Elimination Schemes.

(** [uint64] arithmetic wraps around. *)
Definition wrap64 (z : Z) : Z := (z mod 2 ^ 64)%Z.

(** How a call of [precache] ends: a panic, or the two results and the maps
    as the call leaves them. *)
Inductive Loaded :=
| Panic (err : string)
| Returns (size : Z) (err : option string) (s : State).

Section Precache.
Context (w : World).

(** One entry of [for _, file := range files], with [size] accumulated so
    far.  [Returns 0 (Some err)] is the [return 0, err] inside the loop. *)
Fixpoint precache_entry (s : State) (dir : string) (size : Z) (file : Node)
    {struct file} : Loaded :=
  match file with
  | Dir name listing =>
      let dir' := Join dir name in
      let inner :=
        match listing with
        | Failed err => Panic err
        | Got files =>
            (fix range (files : list Node) (s : State) (size : Z) : Loaded :=
               match files with
               | [] => Returns size None s
               | file :: files =>
                   match precache_entry s dir' size file with
                   | Returns size None s => range files s size
                   | stop => stop
                   end
               end) files s 0%Z
        end in
      match inner with
      | Panic err => Panic err
      | Returns _ (Some err) s => Returns 0%Z (Some err) s
      | Returns sub None s => Returns (wrap64 (size + sub)) None s
      end
  | File name content =>
      let fullpath := Join dir name in
      match content with
      | Failed err => Panic err
      | Got raw =>
          let size := wrap64 (size + Z.of_nat (length raw)) in
          let '(contentType, types', _) :=
            contentType_extended w (types s) (Ext fullpath) raw in
          let entry := {| Content := raw; ContentType := contentType |} in
          Returns size None
            {| cache := <[fullpath := entry]> (cache s); types := types' |}
      end
  end.

(** The range loop of one call. *)
Fixpoint precache_range (files : list Node) (s : State) (dir : string)
    (size : Z) : Loaded :=
  match files with
  | [] => Returns size None s
  | file :: files =>
      match precache_entry s dir size file with
      | Returns size None s => precache_range files s dir size
      | stop => stop
      end
  end.

(** [precache(cache, types, dir)], where [listing] is what
    [os.ReadDir(dir)] gives. *)
Definition precache (s : State) (dir : string) (listing : Outcome (list Node))
  : Loaded :=
  match listing with
  | Failed err => Panic err
  | Got files => precache_range files s dir 0%Z
  end.

End Precache.

(** The bytes of the regular files of a tree, and whether everything in it
    can be listed and read. *)
Fixpoint node_bytes (n : Node) : Z :=
  match n with
  | File _ (Got raw) => Z.of_nat (length raw)
  | File _ (Failed _) => 0
  | Dir _ (Got files) =>
      (fix sum (files : list Node) : Z :=
         match files with
         | [] => 0
         | f :: files => node_bytes f + sum files
         end) files
  | Dir _ (Failed _) => 0
  end%Z.

Fixpoint tree_bytes (files : list Node) : Z :=
  match files with
  | [] => 0
  | f :: files => node_bytes f + tree_bytes files
  end%Z.

Fixpoint node_readable (n : Node) : bool :=
  match n with
  | File _ (Got _) => true
  | File _ (Failed _) => false
  | Dir _ (Got files) =>
      (fix all (files : list Node) : bool :=
         match files with
         | [] => true
         | f :: files => node_readable f && all files
         end) files
  | Dir _ (Failed _) => false
  end.

Fixpoint tree_readable (files : list Node) : bool :=
  match files with
  | [] => true
  | f :: files => node_readable f && tree_readable files
  end.

(** ** Start-up of the extended variant *)

(** [args.MemCache = true], the other fields unchanged. *)
Definition enable_cache (args : Arguments) : Arguments :=
  {| DefaultDoc := DefaultDoc args; Port := Port args; MemCache := true;
     LoadCache := LoadCache args; Directory := Directory args |}.

(** How [main] reaches [ListenAndServe]: not at all, or with the arguments
    and the maps the handler will use. *)
Inductive Started :=
| Crashed (msg : string)
| Serving (args : Arguments) (s : State).

(** [main] of the extended variant, from the parsed arguments to the
    creation of the handler (lines 53-77).  [listing] is what
    [os.ReadDir] gives for the served directory. *)
Definition startup (w : World) (args : Arguments)
    (listing : Outcome (list Node)) : Started :=
  let s := {| cache := ∅; types := ∅ |} in
  let '(args, loaded) :=
    if LoadCache args
    then (enable_cache args,
          precache w s (Directory (enable_cache args)) listing)
    else (args, Returns 0%Z None s) in
  match loaded with
  | Panic err => Crashed err
  | Returns _ (Some err) _ => Crashed err
  | Returns _ None s =>
      if negb (startup_ok args)
      then Crashed "default doc is not in the directory"
      else Serving args s
  end.

(** The files the loader reads, with the path each is stored under, in the
    order of the walk. *)
Fixpoint walk_node (dir : string) (n : Node) : list (string * bytes) :=
  match n with
  | File name (Got raw) => [(Join dir name, raw)]
  | File _ (Failed _) => []
  | Dir name (Got files) =>
      (fix each (files : list Node) : list (string * bytes) :=
         match files with
         | [] => []
         | f :: files => walk_node (Join dir name) f ++ each files
         end) files
  | Dir _ (Failed _) => []
  end.

Fixpoint walk (dir : string) (files : list Node) : list (string * bytes) :=
  match files with
  | [] => []
  | f :: files => walk_node dir f ++ walk dir files
  end.

(** ** The first variant of the handler *)

(** The oldest of the three variants (the second file of [part_000]):
    plain maps, no special case for OPTIONS or HEAD, no Content-Length. *)
Module Legacy.

Section Handler.
Context (w : World) (args : Arguments).

(** Lines 386-398.  [contentType, ok := types[ext]] leaves the empty
    string in [contentType] when the extension is missing; the type
    sniffed inside the block is a new variable, stored in the map under
    any extension, the empty one included. *)
Definition contentType (types : gmap string string) (ext : string)
    (raw : bytes) : string * gmap string string * list Event :=
  match types !! ext with
  | Some t => (t, types, [TypesLoad ext])
  | None =>
      let contentType := "" in
      let data := sniff_window raw in
      let contentType' := DetectContentType w data in
      if negb (String.eqb contentType' octet_stream)
      then (contentType, <[ext := contentType']> types,
            [TypesLoad ext; Sniff data; TypesStore ext contentType'])
      else (contentType, types, [TypesLoad ext; Sniff data])
  end.

Definition respond (contentType : string) (content : bytes)
  : list WriterCall :=
  [HeaderAdd "Content-Type" contentType; Write content].

Definition attempt (s : State) (fullpath : string) : Step :=
  let '(cached, looked) := cache_lookup args s fullpath in
  match cached with
  | Some entry =>
      Return {| state := s; trace := looked;
                calls := respond (ContentType entry) (Content entry) |}
  | None =>
      match fs w fullpath with
      | OpenFails err =>
          if negb (String.eqb fullpath (defaultDoc args))
          then GotoAgain (defaultDoc args) (looked ++ [Open fullpath])
          else Return {| state := s; trace := looked ++ [Open fullpath];
                         calls := [HttpError err StatusNotFound] |}
      | ReadFails _ =>
          Return {| state := s;
                    trace := looked ++ [Open fullpath; ReadAll fullpath];
                    calls := [HttpError "unable to read file"
                                        StatusInternalServerError] |}
      | Readable raw =>
          let '(contentType, types', resolved) :=
            contentType (types s) (Ext fullpath) raw in
          let entry := {| Content := raw; ContentType := contentType |} in
          let '(cache', stored) :=
            if MemCache args
            then (<[fullpath := entry]> (cache s), [CacheStore fullpath])
            else (cache s, []) in
          Return {| state := {| cache := cache'; types := types' |};
                    trace := looked ++ [Open fullpath; ReadAll fullpath]
                               ++ resolved ++ stored;
                    calls := respond contentType raw |}
      end
  end.

Fixpoint serve (fuel : nat) (s : State) (fullpath : string)
    (sofar : list Event) : option Result :=
  match fuel with
  | O => None
  | S fuel =>
      match attempt s fullpath with
      | Return r => Some (after sofar r)
      | GotoAgain fullpath sofar' => serve fuel s fullpath (sofar ++ sofar')
      end
  end.

(** The handler; the method of the request is never looked at. *)
Definition handler (s : State) (r : Request) : option Result :=
  serve 2 s (resolve_path args (URLPath r)) [].

End Handler.

End Legacy.

(** ** A sample world, for evaluating the handler on concrete requests *)

Module Sample.

Definition text (s : string) : bytes := String.list_byte_of_string s.

Definition png_signature : bytes :=
  [Byte.x89; Byte.x50; Byte.x4e; Byte.x47;
   Byte.x0d; Byte.x0a; Byte.x1a; Byte.x0a].

Fixpoint starts_with (sig data : bytes) : bool :=
  match sig, data with
  | [], _ => true
  | b :: sig, d :: data => Byte.eqb b d && starts_with sig data
  | _ :: _, [] => false
  end.

(** Bytes that [http.DetectContentType] takes as a sign of binary data. *)
Definition binary_byte (b : Byte.byte) : bool :=
  let n := Byte.to_N b in
  (N.leb n 8 || N.eqb n 11 || (N.leb 14 n && N.leb n 26)
   || (N.leb 28 n && N.leb n 31))%N.

(** A detector with one signature of the table of
    [http.DetectContentType] and its two defaults. *)
Definition detect (data : bytes) : string :=
  if starts_with png_signature data then "image/png"
  else if forallb (fun b => negb (binary_byte b)) data
  then "text/plain; charset=utf-8"
  else octet_stream.

(** A MIME registry with three entries. *)
Definition registry (ext : string) : string :=
  if String.eqb ext ".png" then "image/png"
  else if String.eqb ext ".html" then "text/html; charset=utf-8"
  else if String.eqb ext ".txt" then "text/plain; charset=utf-8"
  else "".

Definition logo : bytes := png_signature ++ text "IHDR".

(** The files of the sample site in [/srv/www], and one file in a
    directory next to [/data]. *)
Definition files (path : string) : FileState :=
  if String.eqb path "/srv/www/index.html" then Readable (text "<html></html>")
  else if String.eqb path "/srv/www/logo.png" then Readable logo
  else if String.eqb path "/srv/www/b.txt" then Readable (text "b")
  else if String.eqb path "/srv/www/README" then Readable (text "hello")
  else if String.eqb path "/srv/www/pixel.bin" then Readable logo
  else if String.eqb path "/srv/www/locked.html" then ReadFails "input/output error"
  else if String.eqb path "/databackup/secret.txt" then Readable (text "secret")
  else OpenFails ("open " +:+ path +:+ ": no such file or directory").

Definition world : World :=
  {| fs := files; DetectContentType := detect; TypeByExtension := registry |}.

Definition site (memcache : bool) : Arguments :=
  {| DefaultDoc := "index.html"; Port := 80; MemCache := memcache;
     LoadCache := false; Directory := "/srv/www" |}.

Definition data_site : Arguments :=
  {| DefaultDoc := "index.html"; Port := 80; MemCache := false;
     LoadCache := false; Directory := "/data" |}.

(** The directory [/srv/www] as the pre-cache loader walks it. *)
Definition tree : list Node :=
  [ File "README" (Got (text "hello"));
    Dir "img" (Got [File "logo.png" (Got logo); Dir "empty" (Got [])]);
    File "index.html" (Got (text "<html></html>")) ].

Definition get (path : string) : Request :=
  {| Method := MethodGet; URLPath := path |}.
Definition head (path : string) : Request :=
  {| Method := MethodHead; URLPath := path |}.

End Sample.

(** ** More sample data *)

Module Fixture.

(** The sample site with two more files: plain text with the extension of
    [pixel.bin], and a PNG image without extension. *)
Definition files (path : string) : FileState :=
  if String.eqb path "/srv/www/notes.bin"
  then Readable (Sample.text "plain words")
  else if String.eqb path "/srv/www/logo" then Readable Sample.logo
  else Sample.files path.

Definition world : World :=
  {| fs := files; DetectContentType := Sample.detect;
     TypeByExtension := Sample.registry |}.

(** A world in which no file can be opened any more. *)
Definition offline : World :=
  {| fs := fun path => OpenFails ("open " +:+ path +:+ ": input/output error");
     DetectContentType := Sample.detect;
     TypeByExtension := Sample.registry |}.

(** The sample site started with [--load]. *)
Definition loading : Arguments :=
  {| DefaultDoc := "index.html"; Port := 80; MemCache := false;
     LoadCache := true; Directory := "/srv/www" |}.

End Fixture.

(** ** Vocabulary of the properties *)

(** An ordinary path element: not empty, not [.] or [..], no separator. *)
Fixpoint has_slash (e : string) : bool :=
  match e with
  | "" => false
  | String c rest => Ascii.eqb c slash || has_slash rest
  end.

Definition ordinary (e : string) : bool :=
  negb (String.eqb e "") && negb (String.eqb e ".")
  && negb (String.eqb e "..") && negb (has_slash e).

(** The absolute path with the given elements; [absolute []] is ["/"]. *)
Definition absolute (elems : list string) : string := "/" +:+ JoinSlash elems.

(** A path with a [..] element. *)
Definition has_traversal (path : string) : bool :=
  existsb (String.eqb "..") (elements path).

(** [p] lies in the directory [root] or below it, element by element. *)
Definition descendant (root p : string) : Prop :=
  exists relems extra,
    forallb ordinary (relems ++ extra) = true /\ extra <> [] /\
    root = absolute relems /\ p = absolute (relems ++ extra).

(** The headers added to a response, and the bodies written to it. *)
Definition headers (cs : list WriterCall) : list (string * string) :=
  omap (fun c => match c with HeaderAdd k v => Some (k, v) | _ => None end) cs.

Definition bodies (cs : list WriterCall) : list bytes :=
  omap (fun c => match c with Write b => Some b | _ => None end) cs.

(** A result with the calls of [Write] taken out. *)
Definition is_write (c : WriterCall) : bool :=
  match c with Write _ => true | _ => false end.

Definition without_body (r : Result) : Result :=
  {| state := state r; trace := trace r;
     calls := List.filter (fun c => negb (is_write c)) (calls r) |}.

(** The paths given to [os.Open], to [ioutil.ReadAll], and used as cache
    keys, in order. *)
Definition opened (tr : list Event) : list string :=
  omap (fun e => match e with Open p => Some p | _ => None end) tr.

Definition read (tr : list Event) : list string :=
  omap (fun e => match e with ReadAll p => Some p | _ => None end) tr.

Definition sniffed (tr : list Event) : list bytes :=
  omap (fun e => match e with Sniff d => Some d | _ => None end) tr.

Definition touches (e : Event) : option string :=
  match e with
  | Open p | ReadAll p | CacheLoad p | CacheStore p => Some p
  | _ => None
  end.

(** An event that names a path names one with the served root as a string
    prefix. *)
Definition under_root (args : Arguments) (e : Event) : Prop :=
  forall p, touches e = Some p -> HasPrefix p (Directory args) = true.

(** What one entry does to the loop of [precache]: a readable entry adds
    its bytes to [size], an unreadable one makes the loader panic. *)
Definition entry_spec (w : World) (file : Node) : Prop :=
  forall s dir size,
    if node_readable file
    then exists s', precache_entry w s dir size file
                    = Returns (wrap64 (size + node_bytes file)) None s'
    else exists err, precache_entry w s dir size file = Panic err.

(** The cache check of a pass finds nothing (the cache is off, or has no
    entry for the path), and the event it leaves. *)
Definition cache_miss (args : Arguments) (s : State) (fullpath : string)
  : Prop :=
  (cache_lookup args s fullpath).1 = None.

Definition looked (args : Arguments) (fullpath : string) : list Event :=
  if MemCache args then [CacheLoad fullpath] else [].

(** The type found for an extension that is not in the map: the registry's
    when it has one, the sniffed one otherwise. *)
Definition discovered (w : World) (ext : string) (raw : bytes) : string :=
  if Nat.eqb (String.length (TypeByExtension w ext)) 0
  then DetectContentType w (sniff_window raw)
  else TypeByExtension w ext.

(** A map of types without the empty extension as a key and without the
    generic type as a value. *)
Definition types_clean (t : gmap string string) : Prop :=
  forall ext ty, t !! ext = Some ty -> ext <> "" /\ ty <> octet_stream.

(** The paths of the files the loader reads. *)
Definition walk_paths (dir : string) (files : list Node) : list string :=
  (walk dir files).*1.

(** Whether the served directory can be listed and everything in it read. *)
Definition listing_readable (listing : Outcome (list Node)) : bool :=
  match listing with
  | Failed _ => false
  | Got files => tree_readable files
  end.

(** The cache holds the content of a file under its path. *)
Definition cached_as (s : State) (file : string * bytes) : Prop :=
  exists entry, cache s !! file.1 = Some entry /\ Content entry = file.2.

(** From [s] to [s'] the cache was written at the paths of [found] only,
    and holds each file of [found] under its path, provided no two of them
    have the same path. *)
Definition loads (found : list (string * bytes)) (s s' : State) : Prop :=
  (forall q, q ∉ found.*1 -> cache s' !! q = cache s !! q) /\
  (NoDup found.*1 -> Forall (cached_as s') found).

(** The calls on the writer without the Content-Length header. *)
Definition is_length (c : WriterCall) : bool :=
  match c with
  | HeaderAdd key _ => String.eqb key "Content-Length"
  | _ => false
  end.

Definition without_length (cs : list WriterCall) : list WriterCall :=
  List.filter (fun c => negb (is_length c)) cs.

(** Every entry of the tree has an ordinary name, as the entries that
    [os.ReadDir] lists have. *)
Fixpoint node_named (n : Node) : bool :=
  match n with
  | File name _ => ordinary name
  | Dir name (Failed _) => ordinary name
  | Dir name (Got files) =>
      ordinary name &&
      (fix all (files : list Node) : bool :=
         match files with
         | [] => true
         | f :: files => node_named f && all files
         end) files
  end.

Fixpoint tree_named (files : list Node) : bool :=
  match files with
  | [] => true
  | f :: files => node_named f && tree_named files
  end.

(** [path] is the absolute path of [names] below the directory
    [relems]. *)
Definition below (relems : list string) (path : string) : Prop :=
  exists names,
    names <> [] /\ forallb ordinary names = true /\
    path = absolute (relems ++ names).

Example clean_ex1 : Clean "/srv/www//../../etc/passwd" = "/etc/passwd".
Proof. vm_compute. reflexivity. Qed.
Example clean_ex2 : Clean "a/../../b/./c/" = "../b/c".
Proof. vm_compute. reflexivity. Qed.
Example clean_ex3 : Clean "/../a/b/../.." = "/".
Proof. vm_compute. reflexivity. Qed.
Example clean_ex4 : Clean "a/.." = ".".
Proof. vm_compute. reflexivity. Qed.
Example clean_ex5 : Clean "../../a/../../b" = "../../../b".
Proof. vm_compute. reflexivity. Qed.
Example ext_ex1 : Ext "/srv/www.d/logo.tar.gz" = ".gz".
Proof. vm_compute. reflexivity. Qed.
Example ext_ex2 : Ext "/srv/www.d/README" = "".
Proof. vm_compute. reflexivity. Qed.
Example ext_ex3 : Ext "/srv/.bashrc" = ".bashrc".
Proof. vm_compute. reflexivity. Qed.
Example itoa_ex : Itoa 0 = "0" /\ Itoa 512 = "512".
Proof. vm_compute. split; reflexivity. Qed.

(** [Clean] on the cases of the table of Go's own tests of
    [filepath.Clean] (Unix). *)
Example Clean_on_the_cases_of_path_test :
  forallb (fun '(path, cleaned) => String.eqb (Clean path) cleaned)
    [ ("abc", "abc"); ("abc/def", "abc/def"); ("a/b/c", "a/b/c");
      (".", "."); ("..", ".."); ("../..", "../.."); ("../../abc", "../../abc");
      ("/abc", "/abc"); ("/", "/"); ("", ".");
      ("abc/", "abc"); ("abc/def/", "abc/def"); ("a/b/c/", "a/b/c");
      ("./", "."); ("../", ".."); ("../../", "../.."); ("/abc/", "/abc");
      ("abc//def//ghi", "abc/def/ghi"); ("//abc", "/abc");
      ("///abc", "/abc"); ("//abc//", "/abc"); ("abc//", "abc");
      ("abc/./def", "abc/def"); ("/./abc/def", "/abc/def"); ("abc/.", "abc");
      ("abc/def/ghi/../jkl", "abc/def/jkl");
      ("abc/def/../ghi/../jkl", "abc/jkl");
      ("abc/def/..", "abc"); ("abc/def/../..", ".");
      ("/abc/def/../..", "/"); ("abc/def/../../..", "..");
      ("/abc/def/../../..", "/");
      ("abc/def/../../../ghi/jkl/../../../mno", "../../mno");
      ("/../abc", "/abc");
      ("abc/./../def", "def"); ("abc//./../def", "def");
      ("abc/../../././../def", "../../def") ]
  = true.
Proof. vm_compute. reflexivity. Qed.

(** ** Facts about strings and paths *)

Section StringFacts.

Lemma app_cons c (s t : string) : String c s +:+ t = String c (s +:+ t).
Proof. reflexivity. Qed.

Lemma app_empty_l (t : string) : "" +:+ t = t.
Proof. reflexivity. Qed.

Lemma app_assoc_s (a b c : string) : (a +:+ b) +:+ c = a +:+ b +:+ c.
Proof.
  induction a as [|x a IH]; [reflexivity|].
  rewrite !app_cons. by rewrite IH.
Qed.

Lemma prefix_app (p x : string) : HasPrefix (p +:+ x) p = true.
Proof.
  unfold HasPrefix. induction p as [|c p IH]; [by destruct x|].
  rewrite app_cons. simpl. by destruct (Ascii.ascii_dec c c).
Qed.

Lemma prefix_refl (p : string) : HasPrefix p p = true.
Proof.
  unfold HasPrefix. induction p as [|c p IH]; [reflexivity|].
  simpl. by destruct (Ascii.ascii_dec c c).
Qed.

Lemma eqb_false_iff (a b : string) : String.eqb a b = false <-> a <> b.
Proof. apply String.eqb_neq. Qed.

End StringFacts.

Section PathFacts.

Lemma elements_nonempty path : elements path <> [].
Proof.
  destruct path as [|c rest]; [done|]. simpl.
  destruct (Ascii.eqb c slash); [done|]. by destruct (elements rest).
Qed.

(** Splitting at a separator splits the elements. *)
Lemma elements_app_slash a b :
  elements (a +:+ "/" +:+ b) = elements a ++ elements b.
Proof.
  induction a as [|c a IH]; [reflexivity|].
  rewrite app_cons. simpl. destruct (Ascii.eqb c slash).
  - by rewrite IH.
  - rewrite IH. pose proof (elements_nonempty a) as Ha.
    by destruct (elements a).
Qed.

Lemma elements_slash p : elements ("/" +:+ p) = "" :: elements p.
Proof. reflexivity. Qed.

Lemma elements_no_slash e : has_slash e = false -> elements e = [e].
Proof.
  induction e as [|c e IH]; [done|]. simpl.
  destruct (Ascii.eqb c slash); [done|]. simpl. intros H.
  by rewrite (IH H).
Qed.

Lemma ordinary_no_slash e : ordinary e = true -> has_slash e = false.
Proof.
  unfold ordinary. intros H. apply andb_true_iff in H as [_ H].
  by apply negb_true_iff.
Qed.

(** The elements of joined ordinary elements are those elements. *)
Lemma elements_JoinSlash elems :
  elems <> [] -> forallb ordinary elems = true ->
  elements (JoinSlash elems) = elems.
Proof.
  induction elems as [|e rest IH]; [done|]. intros _ Hall.
  simpl in Hall. apply andb_true_iff in Hall as [He Hrest].
  apply ordinary_no_slash in He.
  destruct rest as [|e' rest]; [by apply elements_no_slash|].
  change (JoinSlash (e :: e' :: rest))
    with (e +:+ "/" +:+ JoinSlash (e' :: rest)).
  rewrite elements_app_slash, elements_no_slash by done.
  by rewrite IH.
Qed.

Lemma JoinSlash_app a b :
  a <> [] -> b <> [] ->
  JoinSlash (a ++ b) = JoinSlash a +:+ "/" +:+ JoinSlash b.
Proof.
  induction a as [|e a IH]; [done|]. intros _ Hb.
  destruct a as [|e' a].
  - destruct b; [done|reflexivity].
  - change (JoinSlash ((e :: e' :: a) ++ b))
      with (e +:+ "/" +:+ JoinSlash ((e' :: a) ++ b)).
    rewrite IH by done.
    change (JoinSlash (e :: e' :: a))
      with (e +:+ "/" +:+ JoinSlash (e' :: a)).
    by rewrite !app_assoc_s.
Qed.

Lemma clean_elem_empty rooted out : clean_elem rooted out "" = out.
Proof. reflexivity. Qed.

Lemma clean_elem_ordinary rooted out e :
  ordinary e = true -> clean_elem rooted out e = e :: out.
Proof.
  unfold ordinary, clean_elem.
  rewrite !andb_true_iff, !negb_true_iff. by intros [[[-> ->] ->] _].
Qed.

Lemma clean_ordinary rooted elems out :
  forallb ordinary elems = true ->
  fold_left (clean_elem rooted) elems out = rev elems ++ out.
Proof.
  revert out. induction elems as [|e elems IH]; intros out Hall; [done|].
  simpl in Hall. apply andb_true_iff in Hall as [He Hall].
  simpl. rewrite clean_elem_ordinary, IH by done.
  by rewrite <- app_assoc.
Qed.

Lemma is_rooted_app a b : a <> "" -> is_rooted (a +:+ b) = is_rooted a.
Proof. by destruct a. Qed.

Lemma app_not_empty a b : a <> "" -> String.eqb (a +:+ b) "" = false.
Proof. by destruct a. Qed.

(** Repeated separators are dropped by [Join]: a leading separator of
    the second argument changes nothing. *)
Lemma Join_leading_slash dir p :
  dir <> "" -> Join dir ("/" +:+ p) = Join dir p.
Proof.
  intros Hdir. unfold Join.
  apply eqb_false_iff in Hdir as Hd. rewrite Hd. simpl.
  unfold Clean. rewrite !app_not_empty by done.
  rewrite !is_rooted_app by done.
  rewrite !elements_app_slash, elements_slash.
  by rewrite !fold_left_app.
Qed.

(** Joining an absolute, cleaned directory and ordinary elements. *)
Lemma Join_absolute relems elems :
  forallb ordinary relems = true -> forallb ordinary elems = true ->
  Join (absolute relems) (absolute elems) = absolute (relems ++ elems).
Proof.
  intros Hr He. unfold Join, absolute.
  rewrite app_cons. simpl String.eqb. simpl negb. cbv iota.
  unfold Clean. rewrite app_cons. simpl String.eqb. cbv iota.
  simpl is_rooted. change (Ascii.eqb "/" slash) with true. cbv iota.
  rewrite <- app_cons, elements_app_slash, !elements_slash.
  rewrite fold_left_app. simpl fold_left. rewrite !clean_elem_empty.
  assert (Hfold : forall es out, forallb ordinary es = true ->
    fold_left (clean_elem true) (elements (JoinSlash es)) out = rev es ++ out).
  { intros es out Hes. destruct es as [|e es]; [done|].
    rewrite elements_JoinSlash by done. by apply clean_ordinary. }
  rewrite app_empty_l, !Hfold by done.
  by rewrite app_nil_r, <- rev_app_distr, rev_involutive.
Qed.

Lemma absolute_prefix relems extra :
  HasPrefix (absolute (relems ++ extra)) (absolute relems) = true.
Proof.
  unfold absolute. destruct relems as [|r relems].
  - simpl. apply (prefix_app "/").
  - destruct extra as [|x extra].
    + rewrite app_nil_r. apply prefix_refl.
    + rewrite JoinSlash_app by done.
      rewrite <- app_assoc_s. apply prefix_app.
Qed.

End PathFacts.

(** ** The resolution loop *)

(** Case analysis along one pass of the handler. *)
Ltac pass_cases v w args s fullpath :=
  unfold attempt, cache_lookup;
  destruct (MemCache args) eqn:?;
  try destruct (cache s !! fullpath) eqn:?;
  try destruct (fs w fullpath) eqn:?;
  try destruct (String.eqb fullpath (defaultDoc args)) eqn:?;
  try destruct (contentType_of w v (types s) (Ext fullpath) _)
    as [[? ?] ?] eqn:?;
  simpl.

Section LoopFacts.
Context (v : Variant) (w : World) (args : Arguments).

Lemma cache_lookup_events s fullpath :
  (cache_lookup args s fullpath).2 = looked args fullpath.
Proof. unfold cache_lookup, looked. by destruct (MemCache args). Qed.

Lemma cache_lookup_miss s fullpath :
  cache_miss args s fullpath ->
  cache_lookup args s fullpath = (None, looked args fullpath).
Proof.
  unfold cache_miss. rewrite <- (cache_lookup_events s).
  destruct (cache_lookup args s fullpath) as [c l]. simpl. by intros ->.
Qed.

(** A pass jumps back only after a failed open of a path other than the
    default document, and then to the default document. *)
Lemma attempt_goto s method fullpath fullpath' sofar :
  attempt v w args s method fullpath = GotoAgain fullpath' sofar ->
  fullpath' = defaultDoc args /\ fullpath <> defaultDoc args /\
  cache_miss args s fullpath /\
  (exists err, fs w fullpath = OpenFails err) /\
  sofar = looked args fullpath ++ [Open fullpath].
Proof.
  unfold cache_miss, looked.
  pass_cases v w args s fullpath; intros H; try discriminate H;
    inversion H; subst; repeat split; eauto;
    by apply String.eqb_neq.
Qed.

(** The pass on the default document always returns. *)
Lemma attempt_defaultDoc s method :
  exists r, attempt v w args s method (defaultDoc args) = Return r.
Proof.
  destruct (attempt v w args s method (defaultDoc args)) as [r|p tr] eqn:E;
    [by exists r|].
  apply attempt_goto in E as (_ & Hne & _). done.
Qed.

(** Two passes always reach a [return]. *)
Lemma serve_returns s method fullpath sofar :
  exists res, serve v w args 2 s method fullpath sofar = Some res.
Proof.
  simpl. destruct (attempt v w args s method fullpath) as [r|p tr] eqn:E;
    [by eexists|].
  apply attempt_goto in E as (-> & _).
  destruct (attempt_defaultDoc s method) as [r ->]. by eexists.
Qed.

(** More fuel changes nothing. *)
Lemma serve_enough fuel s method fullpath sofar :
  2 <= fuel ->
  serve v w args fuel s method fullpath sofar
  = serve v w args 2 s method fullpath sofar.
Proof.
  intros Hfuel. destruct fuel as [|[|fuel]]; [lia..|]. simpl.
  destruct (attempt v w args s method fullpath) as [r|p tr] eqn:E; [done|].
  apply attempt_goto in E as (-> & _).
  by destruct (attempt_defaultDoc s method) as [r ->].
Qed.

Lemma handler_returns s r : exists res, handler v w args s r = Some res.
Proof.
  unfold handler. destruct (String.eqb (Method r) MethodOptions);
    [by eexists|]. apply serve_returns.
Qed.

(** The handler, when the first pass returns. *)
Lemma handler_first_pass s r res :
  String.eqb (Method r) MethodOptions = false ->
  attempt v w args s (Method r) (resolve_path args (URLPath r)) = Return res ->
  handler v w args s r = Some res.
Proof.
  intros Hm E. unfold handler. rewrite Hm. simpl. rewrite E.
  by destruct res.
Qed.

(** The handler, when the first pass jumps back. *)
Lemma handler_second_pass s r sofar res :
  String.eqb (Method r) MethodOptions = false ->
  attempt v w args s (Method r) (resolve_path args (URLPath r))
    = GotoAgain (defaultDoc args) sofar ->
  attempt v w args s (Method r) (defaultDoc args) = Return res ->
  handler v w args s r = Some (after sofar res).
Proof.
  intros Hm E1 E2. unfold handler. rewrite Hm. simpl. by rewrite E1, E2.
Qed.

(** The passes that fail. *)
Lemma attempt_open_fails s method fullpath err :
  cache_miss args s fullpath -> fs w fullpath = OpenFails err ->
  attempt v w args s method fullpath =
    if negb (String.eqb fullpath (defaultDoc args))
    then GotoAgain (defaultDoc args) (looked args fullpath ++ [Open fullpath])
    else Return {| state := s; trace := looked args fullpath ++ [Open fullpath];
                   calls := [HttpError err StatusNotFound] |}.
Proof.
  intros Hmiss Hfs. unfold attempt.
  by rewrite (cache_lookup_miss _ _ Hmiss), Hfs.
Qed.

Lemma attempt_read_fails s method fullpath err :
  cache_miss args s fullpath -> fs w fullpath = ReadFails err ->
  attempt v w args s method fullpath =
    Return {| state := s;
              trace := looked args fullpath ++ [Open fullpath; ReadAll fullpath];
              calls := [HttpError "unable to read file"
                                  StatusInternalServerError] |}.
Proof.
  intros Hmiss Hfs. unfold attempt.
  by rewrite (cache_lookup_miss _ _ Hmiss), Hfs.
Qed.

End LoopFacts.

(** ** Events and writer calls *)

Section TraceFacts.

Lemma opened_app a b : opened (a ++ b) = opened a ++ opened b.
Proof. apply omap_app. Qed.

Lemma read_app a b : read (a ++ b) = read a ++ read b.
Proof. apply omap_app. Qed.

Lemma sniffed_app a b : sniffed (a ++ b) = sniffed a ++ sniffed b.
Proof. apply omap_app. Qed.

Lemma opened_looked args p : opened (looked args p) = [].
Proof. unfold looked. by destruct (MemCache args). Qed.

Lemma read_looked args p : read (looked args p) = [].
Proof. unfold looked. by destruct (MemCache args). Qed.

(** Finding the content type touches no path. *)
Lemma contentType_touches w v types ext raw :
  Forall (fun e => touches e = None)
         (contentType_of w v types ext raw).2.
Proof.
  destruct v; simpl.
  - unfold contentType_main. destruct (types !! ext); simpl.
    + by repeat constructor.
    + destruct (_ && _); simpl; by repeat constructor.
  - unfold contentType_extended.
    destruct (Nat.ltb 0 (String.length ext)); [|by constructor].
    destruct (types !! ext); [by repeat constructor|].
    destruct (Nat.eqb _ 0); simpl;
      destruct (negb _); simpl; by repeat constructor.
Qed.

Lemma untouched_opened tr :
  Forall (fun e => touches e = None) tr -> opened tr = [] /\ read tr = [].
Proof.
  induction 1 as [|e tr He _ [IH1 IH2]]; [done|].
  destruct e; simpl in *; try discriminate He; by rewrite ?IH1, ?IH2.
Qed.

Lemma headers_without_writes cs :
  headers (List.filter (fun c => negb (is_write c)) cs) = headers cs.
Proof.
  induction cs as [|c cs IH]; [done|]. destruct c; simpl; by rewrite IH.
Qed.

Lemma bodies_without_writes cs :
  bodies (List.filter (fun c => negb (is_write c)) cs) = [].
Proof.
  induction cs as [|c cs IH]; [done|]. by destruct c.
Qed.

End TraceFacts.

(** ** Failed opens and failed reads *)

Section Failures.
Context (v : Variant) (w : World) (args : Arguments).

(** One pass opens at most the path it was given. *)
Lemma attempt_opened s method fullpath res :
  attempt v w args s method fullpath = Return res ->
  opened (trace res) = [] \/ opened (trace res) = [fullpath].
Proof.
  unfold attempt.
  destruct (cache_lookup args s fullpath) as [cached lk] eqn:Elk.
  assert (Hlk : opened lk = []).
  { replace lk with (cache_lookup args s fullpath).2 by by rewrite Elk.
    rewrite cache_lookup_events. apply opened_looked. }
  destruct cached as [entry|].
  { intros [= <-]. by left. }
  destruct (fs w fullpath) as [err|err|raw].
  - destruct (negb _); [done|]. intros [= <-]. right. simpl.
    by rewrite opened_app, Hlk.
  - intros [= <-]. right. simpl. by rewrite opened_app, Hlk.
  - pose proof (contentType_touches w v (types s) (Ext fullpath) raw) as Ht.
    destruct (contentType_of w v (types s) (Ext fullpath) raw)
      as [[ct types'] resolved].
    apply untouched_opened in Ht as [Ht _]. simpl in Ht.
    destruct (MemCache args); intros [= <-]; right; simpl;
      rewrite !opened_app, Hlk; simpl; rewrite opened_app, Ht; done.
Qed.

End Failures.

(** C4. When the resolved path is not the default document and opening it
    fails, the request is answered by exactly one further pass, on the
    default document: that pass returns, at most the two paths are ever
    opened, and when the default document cannot be opened either the
    answer is 404 with the message of that last error. *)
Theorem open_failure_falls_back_once
    (v : Variant) (w : World) (args : Arguments) (s : State) (r : Request)
    (err : string) :
  let fullpath := resolve_path args (URLPath r) in
  String.eqb (Method r) MethodOptions = false ->
  cache_miss args s fullpath ->
  fs w fullpath = OpenFails err ->
  fullpath <> defaultDoc args ->
  (exists res,
     attempt v w args s (Method r) (defaultDoc args) = Return res /\
     handler v w args s r
       = Some (after (looked args fullpath ++ [Open fullpath]) res) /\
     (opened (trace (after (looked args fullpath ++ [Open fullpath]) res))
        = [fullpath] \/
      opened (trace (after (looked args fullpath ++ [Open fullpath]) res))
        = [fullpath; defaultDoc args])) /\
  (forall err',
     cache_miss args s (defaultDoc args) ->
     fs w (defaultDoc args) = OpenFails err' ->
     handler v w args s r
       = Some {| state := s;
                 trace := (looked args fullpath ++ [Open fullpath])
                            ++ looked args (defaultDoc args)
                            ++ [Open (defaultDoc args)];
                 calls := [HttpError err' StatusNotFound] |}).
Proof.
  intros fullpath Hm Hmiss Hfs Hne.
  assert (E1 : attempt v w args s (Method r) fullpath
               = GotoAgain (defaultDoc args) (looked args fullpath ++ [Open fullpath])).
  { rewrite (attempt_open_fails _ _ _ _ _ _ err) by done.
    apply String.eqb_neq in Hne. by rewrite Hne. }
  split.
  - destruct (attempt_defaultDoc v w args s (Method r)) as [res E2].
    exists res. split; [done|]. split.
    + by apply handler_second_pass.
    + simpl. rewrite !opened_app, opened_looked. simpl.
      destruct (attempt_opened _ _ _ _ _ _ _ E2) as [-> | ->]; auto.
  - intros err' Hmiss' Hfs'.
    erewrite handler_second_pass; [|done|exact E1|].
    2:{ rewrite (attempt_open_fails _ _ _ _ _ _ err') by done.
        by rewrite String.eqb_refl. }
    done.
Qed.

(** C8. When a file opens but reading it fails, the answer is 500 with the
    fixed message "unable to read file"; the maps are left as they were,
    the file is read once, and no path is opened after the failed read.
    This holds for the resolved path and for the default document reached
    after a failed open. *)
Theorem read_failure_is_500
    (v : Variant) (w : World) (args : Arguments) (s : State) (r : Request)
    (err : string) :
  let fullpath := resolve_path args (URLPath r) in
  String.eqb (Method r) MethodOptions = false ->
  cache_miss args s fullpath ->
  (fs w fullpath = ReadFails err ->
   handler v w args s r
     = Some {| state := s;
               trace := looked args fullpath
                          ++ [Open fullpath; ReadAll fullpath];
               calls := [HttpError "unable to read file"
                                   StatusInternalServerError] |}) /\
  (forall err0,
     fs w fullpath = OpenFails err0 -> fullpath <> defaultDoc args ->
     cache_miss args s (defaultDoc args) ->
     fs w (defaultDoc args) = ReadFails err ->
     handler v w args s r
       = Some {| state := s;
                 trace := (looked args fullpath ++ [Open fullpath])
                            ++ looked args (defaultDoc args)
                            ++ [Open (defaultDoc args);
                                ReadAll (defaultDoc args)];
                 calls := [HttpError "unable to read file"
                                     StatusInternalServerError] |}).
Proof.
  intros fullpath Hm Hmiss. split.
  - intros Hfs. apply handler_first_pass; [done|].
    by apply (attempt_read_fails _ _ _ _ _ _ err).
  - intros err0 Hfs Hne Hmiss' Hfs'.
    erewrite handler_second_pass; [|done| |].
    2:{ rewrite (attempt_open_fails _ _ _ _ _ _ err0) by done.
        apply String.eqb_neq in Hne. fold fullpath. by rewrite Hne. }
    2:{ by apply (attempt_read_fails _ _ _ _ _ _ err). }
    done.
Qed.

(** ** Path resolution *)

Section Resolution.
Context (args : Arguments).

Lemma resolve_path_prefix path :
  startup_ok args = true ->
  HasPrefix (resolve_path args path) (Directory args) = true.
Proof.
  intros Hok. unfold resolve_path.
  destruct (HasPrefix (Join _ _) _) eqn:E; simpl; [exact E|exact Hok].
Qed.

Lemma resolve_path_root : resolve_path args "/" = defaultDoc args.
Proof.
  unfold resolve_path. simpl. fold (defaultDoc args).
  by destruct (HasPrefix (defaultDoc args) (Directory args)).
Qed.

Lemma resolve_path_kept path :
  path <> "/" ->
  HasPrefix (Join (Directory args) path) (Directory args) = true ->
  resolve_path args path = Join (Directory args) path.
Proof.
  intros Hp Hpre. unfold resolve_path.
  apply String.eqb_neq in Hp. by rewrite Hp, Hpre.
Qed.

Lemma resolve_path_replaced path :
  path <> "/" ->
  HasPrefix (Join (Directory args) path) (Directory args) = false ->
  resolve_path args path = defaultDoc args.
Proof.
  intros Hp Hpre. unfold resolve_path.
  apply String.eqb_neq in Hp. by rewrite Hp, Hpre.
Qed.

Lemma absolute_not_root elems :
  forallb ordinary elems = true -> elems <> [] -> absolute elems <> "/".
Proof.
  destruct elems as [|e elems]; [done|]. intros Hall _.
  simpl in Hall. apply andb_true_iff in Hall as [He _].
  unfold ordinary in He. destruct e as [|c e]; [done|].
  unfold absolute. by destruct elems.
Qed.

End Resolution.

(** C9. The root path resolves to the default document, and so does the
    default document's own name asked for as a path; the whole answer to
    either request (maps, events, headers and body) is the same, whatever
    the method. *)
Theorem root_path_is_default_document
    (v : Variant) (w : World) (args : Arguments) (s : State) (method : string) :
  Directory args <> "" ->
  resolve_path args "/" = defaultDoc args /\
  resolve_path args ("/" +:+ DefaultDoc args) = resolve_path args "/" /\
  handler v w args s {| Method := method; URLPath := "/" +:+ DefaultDoc args |}
  = handler v w args s {| Method := method; URLPath := "/" |}.
Proof.
  intros Hdir.
  assert (E : resolve_path args ("/" +:+ DefaultDoc args)
              = resolve_path args "/").
  { unfold resolve_path.
    destruct (String.eqb ("/" +:+ DefaultDoc args) "/") eqn:Eroot.
    - done.
    - simpl String.eqb. cbv iota. by rewrite Join_leading_slash. }
  split; [apply resolve_path_root|]. split; [exact E|].
  unfold handler. simpl. by rewrite E.
Qed.


(** ** The prefix invariant *)

Section Prefix.
Context (v : Variant) (w : World) (args : Arguments).

Lemma under_root_looked p :
  HasPrefix p (Directory args) = true -> Forall (under_root args) (looked args p).
Proof.
  intros Hp. unfold looked. destruct (MemCache args); repeat constructor.
  by intros q [= <-].
Qed.

Lemma under_root_untouched tr :
  Forall (fun e => touches e = None) tr -> Forall (under_root args) tr.
Proof.
  intros H. eapply Forall_impl; [exact H|].
  intros e He p Hp. by rewrite He in Hp.
Qed.

(** Every event of a pass on a path under the root is under the root,
    whether the pass returns or jumps back. *)
Lemma attempt_under_root s method fullpath :
  HasPrefix fullpath (Directory args) = true ->
  match attempt v w args s method fullpath with
  | Return res => Forall (under_root args) (trace res)
  | GotoAgain _ sofar => Forall (under_root args) sofar
  end.
Proof.
  intros Hp. pose proof (under_root_looked _ Hp) as Hl.
  assert (Hone : forall e, touches e = Some fullpath -> under_root args e).
  { intros e He q Hq. rewrite He in Hq. by injection Hq as <-. }
  unfold attempt.
  destruct (cache_lookup args s fullpath) as [cached lk] eqn:Elk.
  replace lk with (looked args fullpath)
    by (by rewrite <- (cache_lookup_events args s), Elk).
  destruct cached as [entry|]; [done|].
  destruct (fs w fullpath) as [err|err|raw].
  - destruct (negb _); simpl; apply Forall_app; split; auto;
      repeat constructor; by apply Hone.
  - simpl. apply Forall_app; split; auto;
      repeat constructor; by apply Hone.
  - pose proof (contentType_touches w v (types s) (Ext fullpath) raw) as Ht.
    destruct (contentType_of w v (types s) (Ext fullpath) raw)
      as [[ct types'] resolved]. simpl in Ht.
    apply under_root_untouched in Ht.
    destruct (MemCache args); simpl;
      (apply Forall_app; split; [done|]);
      do 2 (constructor; [by apply Hone|]);
      (apply Forall_app; split; [done|]);
      repeat constructor; by apply Hone.
Qed.

Lemma handler_under_root s r res :
  startup_ok args = true ->
  handler v w args s r = Some res ->
  Forall (under_root args) (trace res).
Proof.
  intros Hok. unfold handler.
  destruct (String.eqb (Method r) MethodOptions).
  { intros [= <-]. constructor. }
  simpl.
  pose proof (attempt_under_root s (Method r) _
                (resolve_path_prefix args (URLPath r) Hok)) as H1.
  destruct (attempt v w args s (Method r) (resolve_path args (URLPath r)))
    as [res1|p sofar] eqn:E1.
  { intros [= <-]. done. }
  apply attempt_goto in E1 as (-> & _).
  pose proof (attempt_under_root s (Method r) _ Hok) as H2.
  destruct (attempt v w args s (Method r) (defaultDoc args))
    as [res2|p sofar2] eqn:E2; [|done].
  intros [= <-]. simpl. by apply Forall_app.
Qed.

End Prefix.

Lemma sibling_not_descendant :
  ~ descendant "/data" "/databackup/secret.txt".
Proof.
  intros (relems & extra & Hall & Hextra & Hroot & Hp).
  rewrite forallb_app in Hall. apply andb_true_iff in Hall as [Hr He].
  assert (Hrel : relems = ["data"]).
  { destruct relems as [|e relems]; [done|].
    unfold absolute in Hroot.
    change "/data" with ("/" +:+ "data") in Hroot.
    apply (inj (String.app "/")) in Hroot.
    rewrite <- (elements_JoinSlash (e :: relems)) by done.
    by rewrite <- Hroot. }
  subst relems. unfold absolute in Hp.
  rewrite JoinSlash_app in Hp by done. discriminate Hp.
Qed.

(** C10. Once the start-up check has passed, every path the handler gives
    to [os.Open] or [ioutil.ReadAll], and every key it looks up or stores
    in the cache, has the served root as a string prefix, in both passes
    and for every request.  The guarantee is about strings and not about
    directories: with [/data] served, a request for
    [/../databackup/secret.txt] opens and serves the file of that name in
    the neighbouring directory [/databackup]. *)
Theorem root_is_a_string_prefix_of_every_path_used :
  (forall (v : Variant) (w : World) (args : Arguments) (s : State)
          (r : Request),
     startup_ok args = true ->
     exists res, handler v w args s r = Some res /\
                 Forall (under_root args) (trace res)) /\
  (forall v : Variant,
     startup_ok Sample.data_site = true /\
     exists res,
       handler v Sample.world Sample.data_site (initial_state v)
               (Sample.get "/../databackup/secret.txt") = Some res /\
       opened (trace res) = ["/databackup/secret.txt"] /\
       bodies (calls res) = [Sample.text "secret"] /\
       HasPrefix "/databackup/secret.txt" (Directory Sample.data_site) = true /\
       ~ descendant (Directory Sample.data_site) "/databackup/secret.txt").
Proof.
  split.
  - intros v w args s r Hok.
    destruct (handler_returns v w args s r) as [res Hres].
    exists res. split; [done|]. by eapply handler_under_root.
  - intros v. split; [by vm_compute|].
    destruct v; eexists; (split; [vm_compute; reflexivity|]);
      (repeat split; try by vm_compute); apply sibling_not_descendant.
Qed.

(** ** HEAD requests *)

Section Head.
Context (v : Variant) (w : World) (args : Arguments).

Lemma respond_head ct content :
  respond MethodHead ct content
  = List.filter (fun c => negb (is_write c)) (respond MethodGet ct content).
Proof. reflexivity. Qed.

(** A pass for HEAD is the pass for GET without the call of [Write]. *)
Lemma attempt_head s fullpath :
  attempt v w args s MethodHead fullpath
  = match attempt v w args s MethodGet fullpath with
    | Return res => Return (without_body res)
    | GotoAgain p sofar => GotoAgain p sofar
    end.
Proof.
  unfold attempt.
  destruct (cache_lookup args s fullpath) as [[entry|] lk]; [done|].
  destruct (fs w fullpath) as [err|err|raw]; [by destruct (negb _)|done|].
  destruct (contentType_of w v (types s) (Ext fullpath) raw)
    as [[ct types'] resolved].
  by destruct (MemCache args).
Qed.

Lemma handler_head s path :
  handler v w args s {| Method := MethodHead; URLPath := path |}
  = without_body
      <$> handler v w args s {| Method := MethodGet; URLPath := path |}.
Proof.
  unfold handler. simpl. rewrite attempt_head.
  destruct (attempt v w args s MethodGet (resolve_path args path))
    as [res|p sofar]; [done|].
  rewrite attempt_head.
  by destruct (attempt v w args s MethodGet p).
Qed.

End Head.

(** C7. A HEAD request goes through the same passes as the GET request
    for the same path, from the same maps: it leaves the same maps and
    events, adds the same headers (Content-Type and Content-Length with
    the same values) and makes no call of [Write], on a cache hit as on a
    miss.  When the request fails, both methods make the same single call
    of [http.Error]. *)
Theorem head_has_the_headers_of_get_and_no_body
    (v : Variant) (w : World) (args : Arguments) (s : State) (path : string) :
  exists rg rh,
    handler v w args s {| Method := MethodGet; URLPath := path |} = Some rg /\
    handler v w args s {| Method := MethodHead; URLPath := path |} = Some rh /\
    state rh = state rg /\ trace rh = trace rg /\
    headers (calls rh) = headers (calls rg) /\
    bodies (calls rh) = [] /\
    ((exists ct content,
        calls rg = [HeaderAdd "Content-Type" ct;
                    HeaderAdd "Content-Length" (Itoa (length content));
                    Write content] /\
        calls rh = [HeaderAdd "Content-Type" ct;
                    HeaderAdd "Content-Length" (Itoa (length content))]) \/
     (exists msg code,
        calls rg = [HttpError msg code] /\ calls rh = [HttpError msg code])).
Proof.
  destruct (handler_returns v w args s
              {| Method := MethodGet; URLPath := path |}) as [rg Hg].
  exists rg, (without_body rg). split; [done|].
  split; [by rewrite handler_head, Hg|].
  split; [done|]. split; [done|].
  split; [apply headers_without_writes|].
  split; [apply bodies_without_writes|].
  revert Hg. unfold handler. simpl.
  assert (Hpass : forall p res,
    attempt v w args s MethodGet p = Return res ->
    (exists ct content,
        calls res = [HeaderAdd "Content-Type" ct;
                     HeaderAdd "Content-Length" (Itoa (length content));
                     Write content]) \/
    (exists msg code, calls res = [HttpError msg code])).
  { intros p res. unfold attempt.
    destruct (cache_lookup args s p) as [[entry|] lk].
    { intros [= <-]. left. by eexists _, _. }
    destruct (fs w p) as [err|err|raw].
    - destruct (negb _); [done|]. intros [= <-]. right. by eexists _, _.
    - intros [= <-]. right. by eexists _, _.
    - destruct (contentType_of w v (types s) (Ext p) raw)
        as [[ct types'] resolved].
      destruct (MemCache args); intros [= <-]; left; by eexists _, _. }
  assert (Hshape : forall res sofar,
    ((exists ct content,
        calls res = [HeaderAdd "Content-Type" ct;
                     HeaderAdd "Content-Length" (Itoa (length content));
                     Write content]) \/
     (exists msg code, calls res = [HttpError msg code])) ->
    (exists ct content,
        calls (after sofar res)
          = [HeaderAdd "Content-Type" ct;
             HeaderAdd "Content-Length" (Itoa (length content));
             Write content] /\
        calls (without_body (after sofar res))
          = [HeaderAdd "Content-Type" ct;
             HeaderAdd "Content-Length" (Itoa (length content))]) \/
    (exists msg code,
        calls (after sofar res) = [HttpError msg code] /\
        calls (without_body (after sofar res)) = [HttpError msg code])).
  { intros res sofar [(ct & content & E)|(msg & code & E)].
    - left. exists ct, content. simpl. by rewrite E.
    - right. exists msg, code. simpl. by rewrite E. }
  destruct (attempt v w args s MethodGet (resolve_path args path))
    as [res|p sofar] eqn:E1.
  { intros [= <-]. apply Hshape. by eapply Hpass. }
  destruct (attempt v w args s MethodGet p) as [res|p' sofar'] eqn:E2; [|done].
  intros [= <-]. apply Hshape. by eapply Hpass.
Qed.

(** ** Paths inside and outside the root *)

(** C1, as stated, fails: a request path with a [..] element whose cleaned
    join stays under the root is resolved to that join, not to the default
    document. *)
Lemma traversal_inside_root_is_not_replaced :
  has_traversal "/a/../b.txt" = true /\
  resolve_path (Sample.site false) "/a/../b.txt" = "/srv/www/b.txt" /\
  defaultDoc (Sample.site false) = "/srv/www/index.html" /\
  resolve_path (Sample.site false) "/a/../b.txt"
    <> defaultDoc (Sample.site false).
Proof. repeat split; by vm_compute. Qed.

(** The default document of a cleaned absolute root, when its name is made
    of ordinary elements. *)
Lemma defaultDoc_absolute (args : Arguments) (relems delems : list string) :
  Directory args = absolute relems ->
  forallb ordinary relems = true ->
  DefaultDoc args = JoinSlash delems ->
  forallb ordinary delems = true ->
  defaultDoc args = absolute (relems ++ delems).
Proof.
  intros Hdir Hr Hdoc Hd. unfold defaultDoc. rewrite Hdir, Hdoc.
  rewrite <- Join_leading_slash by done.
  by apply (Join_absolute relems delems).
Qed.

(** C1, amended.  With a cleaned absolute root and a default document
    named by ordinary elements: a request path made of ordinary elements
    resolves to the root followed by those elements, a descendant of the
    root.  A request path other than [/], with or without [..] elements,
    whose cleaned join with the root does not start with the root string
    resolves to the default document, a descendant of the root; one whose
    cleaned join is the root or a descendant of the root resolves to that
    cleaned join.  Nothing is said of a cleaned join that starts with the
    root string without lying under the root. *)
Theorem resolution_under_the_root_or_the_default_document
    (args : Arguments) (relems delems elems : list string) (path : string) :
  Directory args = absolute relems ->
  forallb ordinary relems = true ->
  DefaultDoc args = JoinSlash delems ->
  forallb ordinary delems = true ->
  delems <> [] ->
  forallb ordinary elems = true ->
  elems <> [] ->
  path <> "/" ->
  (resolve_path args (absolute elems) = absolute (relems ++ elems) /\
   descendant (Directory args) (resolve_path args (absolute elems))) /\
  (HasPrefix (Join (Directory args) path) (Directory args) = false ->
   resolve_path args path = defaultDoc args /\
   descendant (Directory args) (resolve_path args path)) /\
  (Join (Directory args) path = Directory args \/
   descendant (Directory args) (Join (Directory args) path) ->
   resolve_path args path = Join (Directory args) path).
Proof.
  intros Hdir Hr Hdoc Hd Hdne He Hne Hpath.
  assert (E : resolve_path args (absolute elems) = absolute (relems ++ elems)).
  { rewrite resolve_path_kept.
    - rewrite Hdir. by apply Join_absolute.
    - by apply absolute_not_root.
    - rewrite Hdir, Join_absolute by done. apply absolute_prefix. }
  split; [split; [exact E|]|split].
  - rewrite E. exists relems, elems.
    rewrite forallb_app, Hr, He. done.
  - intros Hpre. rewrite (resolve_path_replaced args path Hpath Hpre).
    split; [done|].
    rewrite (defaultDoc_absolute args relems delems) by done.
    exists relems, delems. rewrite forallb_app, Hr, Hd. done.
  - intros Hin. apply resolve_path_kept; [done|].
    destruct Hin as [-> | (relems' & extra & _ & _ & -> & ->)].
    + apply prefix_refl.
    + apply absolute_prefix.
Qed.

(** ** The pre-cache loader *)

Section PrecacheFacts.
Context (w : World).

Lemma Node_nested_ind (P : Node -> Prop) :
  (forall name content, P (File name content)) ->
  (forall name err, P (Dir name (Failed err))) ->
  (forall name files, Forall P files -> P (Dir name (Got files))) ->
  forall n, P n.
Proof.
  intros HFile HFailed HDir. fix IH 1.
  intros [name content|name [err|files]]; [apply HFile|apply HFailed|].
  apply HDir. induction files as [|f files IHfiles]; constructor.
  - apply IH.
  - apply IHfiles.
Qed.

Lemma node_bytes_dir name files :
  node_bytes (Dir name (Got files)) = tree_bytes files.
Proof.
  simpl. induction files as [|f files IH]; [done|]. simpl. by rewrite IH.
Qed.

Lemma node_readable_dir name files :
  node_readable (Dir name (Got files)) = tree_readable files.
Proof.
  simpl. induction files as [|f files IH]; [done|]. simpl. by rewrite IH.
Qed.

(** The loop inside a recursive call is the loop of [precache]. *)
Lemma precache_entry_dir s dir size name files :
  precache_entry w s dir size (Dir name (Got files))
  = match precache_range w files s (Join dir name) 0 with
    | Panic err => Panic err
    | Returns _ (Some err) s' => Returns 0 (Some err) s'
    | Returns sub None s' => Returns (wrap64 (size + sub)) None s'
    end.
Proof.
  simpl. generalize 0%Z at 1 3 as acc. revert s.
  induction files as [|f files IH]; intros s acc; [done|].
  simpl. destruct (precache_entry w s (Join dir name) acc f)
    as [err|size' [err|] s']; done.
Qed.

Lemma node_bytes_nonneg n : (0 <= node_bytes n)%Z.
Proof.
  induction n as [name [err|raw]|name err|name files IH]
    using Node_nested_ind; simpl; try lia.
  change (0 <= node_bytes (Dir name (Got files)))%Z.
  rewrite node_bytes_dir.
  induction IH as [|f files Hf _ IH']; simpl; lia.
Qed.

Lemma tree_bytes_nonneg files : (0 <= tree_bytes files)%Z.
Proof.
  induction files as [|f files IH]; simpl; [lia|].
  pose proof (node_bytes_nonneg f). lia.
Qed.

Lemma wrap64_range z : (0 <= wrap64 z < 2 ^ 64)%Z.
Proof. unfold wrap64. apply Z.mod_pos_bound. lia. Qed.

Lemma wrap64_small z : (0 <= z < 2 ^ 64)%Z -> wrap64 z = z.
Proof. unfold wrap64. apply Z.mod_small. Qed.

Lemma wrap64_add_r a b : wrap64 (a + wrap64 b) = wrap64 (a + b).
Proof. unfold wrap64. apply Zplus_mod_idemp_r. Qed.

Lemma wrap64_add_l a b : wrap64 (wrap64 a + b) = wrap64 (a + b).
Proof. unfold wrap64. apply Zplus_mod_idemp_l. Qed.

Lemma precache_range_spec files :
  Forall (entry_spec w) files ->
  forall s dir size, (0 <= size < 2 ^ 64)%Z ->
    if tree_readable files
    then exists s', precache_range w files s dir size
                    = Returns (wrap64 (size + tree_bytes files)) None s'
    else exists err, precache_range w files s dir size = Panic err.
Proof.
  induction 1 as [|f files Hf _ IH]; intros s dir size Hsize.
  - simpl. exists s. by rewrite Z.add_0_r, wrap64_small.
  - simpl. specialize (Hf s dir size).
    destruct (node_readable f); simpl.
    + destruct Hf as [s' ->].
      specialize (IH s' dir _ (wrap64_range (size + node_bytes f))).
      destruct (tree_readable files).
      * destruct IH as [s'' ->]. exists s''.
        by rewrite wrap64_add_l, Z.add_assoc.
      * done.
    + destruct Hf as [err ->]. by exists err.
Qed.

Lemma precache_entry_spec file : entry_spec w file.
Proof.
  induction file as [name [err|raw]|name err|name files IH]
    using Node_nested_ind; intros s dir size.
  - simpl. by eexists.
  - simpl. destruct (contentType_extended _ _ _ _) as [[ct types'] tr].
    by eexists.
  - simpl. by eexists.
  - rewrite node_readable_dir, node_bytes_dir, precache_entry_dir.
    pose proof (precache_range_spec files IH s (Join dir name) 0%Z) as Hr.
    destruct (tree_readable files).
    + destruct Hr as [s' ->]; [lia|]. exists s'.
      by rewrite Z.add_0_l, wrap64_add_r.
    + destruct Hr as [err ->]; [lia|]. by exists err.
Qed.

End PrecacheFacts.

(** C6. On a tree in which every directory can be listed and every file
    read, [precache] returns without error, and the size it returns is the
    sum of the lengths of all files of the tree, sub-directories included,
    in [uint64] arithmetic; below 2^64 bytes that is the sum itself. *)
Theorem precache_returns_the_bytes_of_the_tree
    (w : World) (s : State) (dir : string) (files : list Node) :
  tree_readable files = true ->
  exists s',
    precache w s dir (Got files)
      = Returns (wrap64 (tree_bytes files)) None s' /\
    ((tree_bytes files < 2 ^ 64)%Z ->
     wrap64 (tree_bytes files) = tree_bytes files).
Proof.
  intros Hread. unfold precache.
  assert (Hall : Forall (entry_spec w) files).
  { apply Forall_forall. intros f _. apply precache_entry_spec. }
  pose proof (precache_range_spec w files Hall s dir 0%Z) as Hr.
  rewrite Hread in Hr. destruct Hr as [s' Hs']; [lia|].
  exists s'. split; [by rewrite Hs'|].
  intros Hlt. apply wrap64_small. pose proof (tree_bytes_nonneg files). lia.
Qed.

(** ** Content types *)

Section ContentTypeFacts.
Context (w : World).

Lemma sniff_window_firstn raw : sniff_window raw = firstn 512 raw.
Proof.
  unfold sniff_window. destruct (Nat.ltb 512 (List.length raw)) eqn:E; [done|].
  apply Nat.ltb_ge in E. by rewrite !firstn_all2 by lia.
Qed.

Lemma sniff_window_length raw : length (sniff_window raw) <= 512.
Proof. rewrite sniff_window_firstn, length_firstn. lia. Qed.

Lemma length_zero_empty (x : string) : Nat.eqb (String.length x) 0 = true <-> x = "".
Proof. destruct x; simpl; split; done. Qed.

Lemma length_pos_nonempty (x : string) : Nat.ltb 0 (String.length x) = true <-> x <> "".
Proof. destruct x; simpl; split; done. Qed.

(** The extended variant on an extension it does not know. *)
Lemma contentType_extended_unknown types ext raw :
  ext <> "" -> types !! ext = None ->
  (contentType_extended w types ext raw).1.1 = discovered w ext raw /\
  sniffed (contentType_extended w types ext raw).2
  = if Nat.eqb (String.length (TypeByExtension w ext)) 0
    then [sniff_window raw] else [].
Proof.
  intros Hext Hty. unfold contentType_extended, discovered.
  apply length_pos_nonempty in Hext. rewrite Hext, Hty.
  destruct (Nat.eqb (String.length (TypeByExtension w ext)) 0);
    destruct (negb _); done.
Qed.

(** The extended variant on a file without extension. *)
Lemma contentType_extended_no_ext types raw :
  contentType_extended w types "" raw = ("", types, []).
Proof. reflexivity. Qed.

(** Asking the extended variant again, from the map it left, gives the
    same type and leaves the map as it is. *)
Lemma contentType_extended_again types ext raw :
  let '(ct, types', _) := contentType_extended w types ext raw in
  (contentType_extended w types' ext raw).1 = (ct, types').
Proof.
  unfold contentType_extended.
  destruct (Nat.ltb 0 (String.length ext)) eqn:Hext; [|done].
  destruct (types !! ext) as [t|] eqn:Hty.
  { by rewrite Hty. }
  destruct (Nat.eqb (String.length (TypeByExtension w ext)) 0) eqn:Hreg.
  - destruct (negb (String.eqb _ octet_stream)) eqn:Hoct.
    + by rewrite lookup_insert_eq.
    + by rewrite ?Hty, ?Hreg, ?Hoct.
  - destruct (negb (String.eqb _ octet_stream)) eqn:Hoct.
    + by rewrite lookup_insert_eq.
    + by rewrite ?Hty, ?Hreg, ?Hoct.
Qed.

End ContentTypeFacts.

(** C3, as stated, fails: in the extended variant a file without extension
    gets no type at all.  The empty extension is not in the map and the
    registry knows nothing about it, sniffing the content would give
    [text/plain; charset=utf-8], and the Content-Type sent is empty. *)
Lemma no_extension_no_discovery :
  exists res,
    handler Extended Sample.world (Sample.site false) (initial_state Extended)
            (Sample.get "/README") = Some res /\
    read (trace res) = ["/srv/www/README"] /\
    types (initial_state Extended) !! Ext "/srv/www/README" = None /\
    TypeByExtension Sample.world (Ext "/srv/www/README") = "" /\
    DetectContentType Sample.world (sniff_window (Sample.text "hello"))
      = "text/plain; charset=utf-8" /\
    headers (calls res) = [("Content-Type", ""); ("Content-Length", "5")].
Proof. eexists. split; [by vm_compute|]. repeat split; by vm_compute. Qed.

(** C3, amended.  In the extended variant, in either pass, a file that is
    read from disk and whose extension is not empty and not in the map is
    sent with the type the registry has for the extension when that is not
    empty, and otherwise with the type sniffed from its first 512 bytes at
    most; the content is sniffed only in the second case. *)
Theorem extended_discovers_the_type_of_an_unknown_extension
    (w : World) (args : Arguments) (s : State) (method fullpath : string)
    (raw : bytes) :
  cache_miss args s fullpath ->
  fs w fullpath = Readable raw ->
  Ext fullpath <> "" ->
  types s !! Ext fullpath = None ->
  exists res,
    attempt Extended w args s method fullpath = Return res /\
    calls res = respond method (discovered w (Ext fullpath) raw) raw /\
    headers (calls res)
      = [("Content-Type", discovered w (Ext fullpath) raw);
         ("Content-Length", Itoa (length raw))] /\
    discovered w (Ext fullpath) raw
      = (if String.eqb (TypeByExtension w (Ext fullpath)) ""
         then DetectContentType w (firstn 512 raw)
         else TypeByExtension w (Ext fullpath)) /\
    sniffed (trace res)
      = (if String.eqb (TypeByExtension w (Ext fullpath)) ""
         then [firstn 512 raw] else []).
Proof.
  intros Hmiss Hfs Hext Hty.
  destruct (contentType_extended_unknown w (types s) (Ext fullpath) raw Hext Hty)
    as [Hct Hsn].
  assert (Hreg : Nat.eqb (String.length (TypeByExtension w (Ext fullpath))) 0
                 = String.eqb (TypeByExtension w (Ext fullpath)) "").
  { by destruct (TypeByExtension w (Ext fullpath)). }
  unfold attempt. rewrite (cache_lookup_miss _ _ _ Hmiss), Hfs. simpl.
  destruct (contentType_extended w (types s) (Ext fullpath) raw)
    as [[ct types'] resolved]. simpl in Hct, Hsn. subst ct.
  assert (Hsniffed : forall stored,
    sniffed stored = [] ->
    sniffed (looked args fullpath
               ++ Open fullpath :: ReadAll fullpath :: resolved ++ stored)
    = (if String.eqb (TypeByExtension w (Ext fullpath)) ""
       then [firstn 512 raw] else [])).
  { intros stored Hst. rewrite sniffed_app. simpl.
    rewrite sniffed_app, Hst, Hsn, Hreg, sniff_window_firstn, app_nil_r.
    unfold looked. by destruct (MemCache args). }
  assert (Hdisc : discovered w (Ext fullpath) raw
      = (if String.eqb (TypeByExtension w (Ext fullpath)) ""
         then DetectContentType w (firstn 512 raw)
         else TypeByExtension w (Ext fullpath))).
  { unfold discovered. by rewrite Hreg, sniff_window_firstn. }
  destruct (MemCache args) eqn:Hmem; eexists; (split; [reflexivity|]);
    simpl; (split; [done|]); (split; [by destruct (negb _)|]);
    (split; [done|]); by apply Hsniffed.
Qed.

(** C5, as stated, fails: in the extended variant nothing is sniffed for a
    file without extension, and its Content-Type is empty although the
    content is plain text. *)
Lemma no_extension_is_not_sniffed :
  exists res,
    handler Extended Sample.world (Sample.site true) (initial_state Extended)
            (Sample.get "/README") = Some res /\
    Ext "/srv/www/README" = "" /\
    read (trace res) = ["/srv/www/README"] /\
    sniffed (trace res) = [] /\
    headers (calls res) = [("Content-Type", ""); ("Content-Length", "5")] /\
    DetectContentType Sample.world (sniff_window (Sample.text "hello")) <> "".
Proof. eexists. split; [by vm_compute|]. repeat split; by vm_compute. Qed.

(** C5, amended.  In the extended variant, in either pass, a file that is
    read from disk and has no extension is sent with an empty Content-Type:
    neither the map nor the registry is consulted, the content is not
    sniffed, and the map of types is left as it was. *)
Theorem extended_sends_no_type_without_extension
    (w : World) (args : Arguments) (s : State) (method fullpath : string)
    (raw : bytes) :
  cache_miss args s fullpath ->
  fs w fullpath = Readable raw ->
  Ext fullpath = "" ->
  exists res,
    attempt Extended w args s method fullpath = Return res /\
    calls res = respond method "" raw /\
    trace res = looked args fullpath ++ [Open fullpath; ReadAll fullpath]
                  ++ (if MemCache args then [CacheStore fullpath] else []) /\
    sniffed (trace res) = [] /\
    types (state res) = types s.
Proof.
  intros Hmiss Hfs Hext.
  unfold attempt. rewrite (cache_lookup_miss _ _ _ Hmiss), Hfs, Hext. simpl.
  unfold looked.
  destruct (MemCache args); eexists; (split; [reflexivity|]); done.
Qed.

(** ** Consecutive requests *)

Section Again.
Context (v : Variant) (w : World) (args : Arguments).

(** Where asking twice gives the same answer: in the extended variant,
    and in [main.go] when the cache is on. *)
Hypothesis stable : v = Extended \/ MemCache args = true.

(** A pass that returned returns the same calls when run again from the
    maps it left, and leaves those maps as they are. *)
Lemma attempt_again s method fullpath res :
  attempt v w args s method fullpath = Return res ->
  exists res',
    attempt v w args (state res) method fullpath = Return res' /\
    calls res' = calls res /\ state res' = state res.
Proof.
  unfold attempt, cache_lookup.
  destruct (MemCache args) eqn:Hmem.
  - destruct (cache s !! fullpath) as [entry|] eqn:Hc.
    { intros [= <-]. simpl. rewrite Hc. by eexists. }
    destruct (fs w fullpath) as [err|err|raw] eqn:Hfs.
    + destruct (negb _) eqn:Hdd; [done|]. intros [= <-]. simpl.
      rewrite ?Hc, ?Hfs, ?Hdd. by eexists.
    + intros [= <-]. simpl. rewrite ?Hc, ?Hfs. by eexists.
    + destruct (contentType_of w v (types s) (Ext fullpath) raw)
        as [[ct types'] resolved].
      intros [= <-]. simpl. rewrite lookup_insert_eq. by eexists.
  - destruct stable as [-> | ?]; [|done].
    destruct (fs w fullpath) as [err|err|raw] eqn:Hfs.
    + destruct (negb _) eqn:Hdd; [done|]. intros [= <-]. simpl.
      rewrite ?Hfs, ?Hdd. by eexists.
    + intros [= <-]. simpl. rewrite ?Hfs. by eexists.
    + simpl. pose proof (contentType_extended_again w (types s) (Ext fullpath) raw) as Hag.
      destruct (contentType_extended w (types s) (Ext fullpath) raw)
        as [[ct types'] resolved].
      intros [= <-]. simpl. rewrite ?Hfs.
      destruct (contentType_extended w types' (Ext fullpath) raw)
        as [[ct2 types2] resolved2]. simpl in Hag.
      injection Hag as -> ->. by eexists.
Qed.

(** A pass on another path does not undo a failed first pass. *)
Lemma attempt_goto_again s method fullpath sofar res :
  attempt v w args s method fullpath = GotoAgain (defaultDoc args) sofar ->
  attempt v w args s method (defaultDoc args) = Return res ->
  attempt v w args (state res) method fullpath
  = GotoAgain (defaultDoc args) sofar.
Proof.
  intros E1 E2.
  assert (Hcache : MemCache args = true ->
                   cache (state res) !! fullpath = cache s !! fullpath).
  { intros Hmem. apply attempt_goto in E1 as (_ & Hne & _).
    revert E2. unfold attempt, cache_lookup. rewrite Hmem.
    destruct (cache s !! defaultDoc args); [by intros [= <-]|].
    destruct (fs w (defaultDoc args)) as [err|err|raw].
    - destruct (negb _); [done|]. by intros [= <-].
    - by intros [= <-].
    - destruct (contentType_of w v (types s) (Ext (defaultDoc args)) raw)
        as [[ct types'] resolved].
      intros [= <-]. simpl. by rewrite lookup_insert_ne. }
  revert E1. unfold attempt, cache_lookup.
  destruct (MemCache args).
  - rewrite Hcache by done.
    destruct (cache s !! fullpath); [done|].
    destruct (fs w fullpath) as [err|err|raw];
      [by destruct (negb _)|done|].
    destruct (contentType_of w v (types s) (Ext fullpath) raw)
      as [[ct types'] resolved]. done.
  - destruct (fs w fullpath) as [err|err|raw];
      [by destruct (negb _)|done|].
    destruct (contentType_of w v (types s) (Ext fullpath) raw)
      as [[ct types'] resolved]. done.
Qed.

(** X16. The same request, asked again from the maps the first answer
    left, gets the same calls on the writer: the same headers and the same
    bytes.  This holds in the extended variant, and in [main.go] when the
    cache is on. *)
Lemma consecutive_requests_agree s r res :
  handler v w args s r = Some res ->
  exists res',
    handler v w args (state res) r = Some res' /\ calls res' = calls res.
Proof.
  unfold handler.
  destruct (String.eqb (Method r) MethodOptions).
  { intros [= <-]. by eexists. }
  simpl.
  destruct (attempt v w args s (Method r) (resolve_path args (URLPath r)))
    as [res1|p sofar] eqn:E1.
  - intros [= <-]. simpl.
    destruct (attempt_again _ _ _ _ E1) as (res' & -> & Hcalls & _).
    by eexists.
  - pose proof E1 as Hgoto. apply attempt_goto in Hgoto as (-> & _).
    destruct (attempt v w args s (Method r) (defaultDoc args))
      as [res2|p sofar2] eqn:E2; [|done].
    intros [= <-]. simpl.
    rewrite (attempt_goto_again _ _ _ _ _ E1 E2).
    destruct (attempt_again _ _ _ _ E2) as (res' & -> & Hcalls & _).
    by eexists.
Qed.

End Again.

(** X17. In [main.go] the type sniffed for an extension that is not in the
    map is stored in the map, when it is worth storing, and never sent:
    the Content-Type of that answer is empty. *)
Lemma main_go_sends_no_type_for_an_unknown_extension
    (w : World) (args : Arguments) (s : State) (method fullpath : string)
    (raw : bytes) :
  cache_miss args s fullpath ->
  fs w fullpath = Readable raw ->
  types s !! Ext fullpath = None ->
  exists res,
    attempt MainGo w args s method fullpath = Return res /\
    calls res = respond method "" raw /\
    sniffed (trace res) = [firstn 512 raw] /\
    (DetectContentType w (firstn 512 raw) <> octet_stream ->
     Ext fullpath <> "" ->
     types (state res) !! Ext fullpath
     = Some (DetectContentType w (firstn 512 raw))).
Proof.
  intros Hmiss Hfs Hty.
  unfold attempt. rewrite (cache_lookup_miss _ _ _ Hmiss), Hfs. simpl.
  unfold contentType_main. rewrite Hty, sniff_window_firstn.
  assert (Hl : sniffed (looked args fullpath) = []).
  { unfold looked. by destruct (MemCache args). }
  destruct (negb (String.eqb _ octet_stream)) eqn:Hoct; simpl.
  - destruct (negb (Nat.eqb (String.length (Ext fullpath)) 0)) eqn:Hext;
      simpl; destruct (MemCache args); eexists; (split; [reflexivity|]);
      simpl; (split; [done|]).
    all: rewrite sniffed_app, Hl. all: simpl. all: split; [done|].
    all: intros _ Hne. all: rewrite ?lookup_insert_eq; try done.
    all: apply negb_false_iff, length_zero_empty in Hext; done.
  - destruct (MemCache args); eexists; (split; [reflexivity|]);
      simpl; (split; [done|]).
    all: rewrite sniffed_app, Hl. all: simpl. all: split; [done|].
    all: intros Hne _. all: apply negb_false_iff, String.eqb_eq in Hoct; done.
Qed.

(** C2, at the input where [main.go] breaks it.  The cache is off and
    [/logo.png] exists; its extension is not in the map.  The first GET
    sniffs [image/png], stores it in the map under [.png] and sends an
    empty Content-Type; the second GET finds [.png] in the map and sends
    [image/png].  The bytes sent are the same. *)
Theorem main_go_second_get_changes_the_content_type :
  exists first second,
    handler MainGo Sample.world (Sample.site false) (initial_state MainGo)
            (Sample.get "/logo.png") = Some first /\
    handler MainGo Sample.world (Sample.site false) (state first)
            (Sample.get "/logo.png") = Some second /\
    fs Sample.world "/srv/www/logo.png" = Readable Sample.logo /\
    bodies (calls first) = [Sample.logo] /\
    bodies (calls second) = [Sample.logo] /\
    sniffed (trace first) = [Sample.logo] /\
    headers (calls first) = [("Content-Type", ""); ("Content-Length", "12")] /\
    headers (calls second)
      = [("Content-Type", "image/png"); ("Content-Length", "12")].
Proof.
  eexists. eexists.
  split; [by vm_compute|]. split; [by vm_compute|].
  repeat split; by vm_compute.
Qed.


(** ** The theorems at concrete inputs *)

Lemma open_failure_falls_back_once_at_missing :
  handler MainGo Sample.world Sample.data_site (initial_state MainGo)
          (Sample.get "/missing")
  = Some {| state := initial_state MainGo;
            trace := [Open "/data/missing"; Open "/data/index.html"];
            calls := [HttpError
                        "open /data/index.html: no such file or directory"
                        StatusNotFound] |}.
Proof.
  pose proof (open_failure_falls_back_once MainGo Sample.world Sample.data_site
                (initial_state MainGo) (Sample.get "/missing")
                "open /data/missing: no such file or directory") as H.
  destruct H as [_ H].
  - reflexivity.
  - reflexivity.
  - reflexivity.
  - vm_compute. discriminate.
  - apply (H "open /data/index.html: no such file or directory");
      reflexivity.
Defined.

Lemma read_failure_is_500_at_locked :
  handler Extended Sample.world (Sample.site true) (initial_state Extended)
          (Sample.head "/locked.html")
  = Some {| state := initial_state Extended;
            trace := [CacheLoad "/srv/www/locked.html";
                      Open "/srv/www/locked.html";
                      ReadAll "/srv/www/locked.html"];
            calls := [HttpError "unable to read file"
                                StatusInternalServerError] |}.
Proof.
  pose proof (read_failure_is_500 Extended Sample.world (Sample.site true)
                (initial_state Extended) (Sample.head "/locked.html")
                "input/output error") as H.
  destruct H as [H _].
  - reflexivity.
  - reflexivity.
  - apply H. reflexivity.
Defined.

Lemma root_path_is_default_document_at_site :
  resolve_path (Sample.site true) "/index.html" = "/srv/www/index.html" /\
  handler MainGo Sample.world (Sample.site true) (initial_state MainGo)
          (Sample.get "/index.html")
  = handler MainGo Sample.world (Sample.site true) (initial_state MainGo)
            (Sample.get "/").
Proof.
  pose proof (root_path_is_default_document MainGo Sample.world
                (Sample.site true) (initial_state MainGo) MethodGet) as H.
  destruct H as (H1 & H2 & H3).
  - vm_compute. discriminate.
  - split; [exact (eq_trans H2 H1)|exact H3].
Defined.

Lemma root_is_a_string_prefix_at_traversal :
  exists res,
    handler MainGo Sample.world (Sample.site true) (initial_state MainGo)
            (Sample.get "/../../etc/passwd") = Some res /\
    Forall (under_root (Sample.site true)) (trace res).
Proof.
  apply (proj1 root_is_a_string_prefix_of_every_path_used).
  reflexivity.
Defined.

Lemma resolution_under_the_root_at_site :
  resolve_path (Sample.site false) "/img/logo.png" = "/srv/www/img/logo.png" /\
  descendant "/srv/www" (resolve_path (Sample.site false) "/img/logo.png") /\
  resolve_path (Sample.site false) "/../../etc/passwd"
    = "/srv/www/index.html" /\
  descendant "/srv/www" (resolve_path (Sample.site false) "/../../etc/passwd") /\
  resolve_path (Sample.site false) "/a/../b.txt" = "/srv/www/b.txt".
Proof.
  pose proof (resolution_under_the_root_or_the_default_document
                (Sample.site false) ["srv"; "www"] ["index.html"]
                ["img"; "logo.png"]) as H.
  destruct (H "/../../etc/passwd") as [[H1 H2] [H3 _]];
    [reflexivity|reflexivity|reflexivity|reflexivity|discriminate
    |reflexivity|discriminate|discriminate|].
  destruct (H "/a/../b.txt") as [_ [_ H4]];
    [reflexivity|reflexivity|reflexivity|reflexivity|discriminate
    |reflexivity|discriminate|discriminate|].
  destruct H3 as [H3 H3']; [reflexivity|].
  split; [exact H1|]. split; [exact H2|]. split; [exact H3|].
  split; [exact H3'|]. apply H4. right.
  exists ["srv"; "www"], ["b.txt"].
  split; [reflexivity|]. split; [discriminate|]. split; reflexivity.
Defined.

Lemma precache_returns_the_bytes_of_the_sample :
  exists s',
    precache Sample.world (initial_state Extended) "/srv/www" (Got Sample.tree)
    = Returns 30 None s'.
Proof.
  pose proof (precache_returns_the_bytes_of_the_tree Sample.world
                (initial_state Extended) "/srv/www" Sample.tree) as H.
  destruct H as [s' [H _]].
  - reflexivity.
  - exists s'. exact H.
Defined.

Lemma extended_discovers_the_type_of_pixel_bin :
  exists res,
    attempt Extended Sample.world (Sample.site false) (initial_state Extended)
            MethodGet "/srv/www/pixel.bin" = Return res /\
    headers (calls res)
      = [("Content-Type", "image/png"); ("Content-Length", "12")] /\
    sniffed (trace res) = [Sample.logo].
Proof.
  pose proof (extended_discovers_the_type_of_an_unknown_extension Sample.world
                (Sample.site false) (initial_state Extended) MethodGet
                "/srv/www/pixel.bin" Sample.logo) as H.
  destruct H as (res & H1 & _ & H2 & _ & H3).
  - reflexivity.
  - reflexivity.
  - vm_compute. discriminate.
  - reflexivity.
  - exists res. split; [exact H1|]. split; [exact H2|exact H3].
Defined.

Lemma extended_sends_no_type_for_readme :
  exists res,
    attempt Extended Sample.world (Sample.site true) (initial_state Extended)
            MethodGet "/srv/www/README" = Return res /\
    calls res = [HeaderAdd "Content-Type" "";
                 HeaderAdd "Content-Length" "5";
                 Write (Sample.text "hello")] /\
    sniffed (trace res) = [].
Proof.
  pose proof (extended_sends_no_type_without_extension Sample.world
                (Sample.site true) (initial_state Extended) MethodGet
                "/srv/www/README" (Sample.text "hello")) as H.
  destruct H as (res & H1 & H2 & _ & H3 & _).
  - reflexivity.
  - reflexivity.
  - reflexivity.
  - exists res. split; [exact H1|]. split; [exact H2|exact H3].
Defined.

(** ** More on the resolution loop *)

Section LoopShape.
Context (v : Variant) (w : World) (args : Arguments).

(** What one pass opens and reads. *)
Lemma attempt_files s method fullpath :
  match attempt v w args s method fullpath with
  | Return res =>
      (opened (trace res) = [] /\ read (trace res) = []) \/
      (opened (trace res) = [fullpath] /\
       (read (trace res) = [] \/ read (trace res) = [fullpath]))
  | GotoAgain _ sofar => opened sofar = [fullpath] /\ read sofar = []
  end.
Proof.
  unfold attempt.
  destruct (cache_lookup args s fullpath) as [cached lk] eqn:Elk.
  assert (lk = looked args fullpath) as ->
    by (by rewrite <- (cache_lookup_events args s), Elk).
  pose proof (opened_looked args fullpath) as Ho.
  pose proof (read_looked args fullpath) as Hr.
  destruct cached as [entry|]; [by left|].
  destruct (fs w fullpath) as [err|err|raw].
  - destruct (negb _); simpl; rewrite ?opened_app, ?read_app, Ho, Hr; auto.
  - simpl. rewrite opened_app, read_app, Ho, Hr. auto.
  - pose proof (contentType_touches w v (types s) (Ext fullpath) raw) as Ht.
    destruct (contentType_of w v (types s) (Ext fullpath) raw)
      as [[ct types'] resolved].
    apply untouched_opened in Ht as [Ht1 Ht2]. simpl in Ht1, Ht2.
    destruct (MemCache args); simpl;
      rewrite opened_app, read_app, Ho, Hr; simpl;
      rewrite opened_app, read_app, Ht1, Ht2; auto.
Qed.

End LoopShape.

(** X1. The loop made by [goto again] ends: with any fuel from two on the
    passes reach a [return], with the result two passes give.  At most the
    resolved path and then the default document are opened, at most one
    file is read, and it is the one opened last. *)
Theorem the_loop_ends_within_two_passes
    (v : Variant) (w : World) (args : Arguments) (s : State)
    (method fullpath : string) (fuel : nat) :
  2 <= fuel ->
  exists res,
    serve v w args fuel s method fullpath [] = Some res /\
    serve v w args 2 s method fullpath [] = Some res /\
    opened (trace res) `prefix_of` [fullpath; defaultDoc args] /\
    (read (trace res) = [] \/
     exists p, read (trace res) = [p] /\ last (opened (trace res)) = Some p).
Proof.
  intros Hfuel. rewrite (serve_enough v w args fuel) by done. simpl.
  pose proof (attempt_files v w args s method fullpath) as H1.
  destruct (attempt v w args s method fullpath) as [res|p sofar] eqn:E1.
  - exists (after [] res). split; [done|]. split; [done|]. simpl.
    destruct H1 as [[-> ->]|[-> [-> | ->]]].
    + split; [apply prefix_nil|by left].
    + split; [by exists [defaultDoc args]|by left].
    + split; [by exists [defaultDoc args]|right; by exists fullpath].
  - apply attempt_goto in E1 as (-> & _). destruct H1 as [Ho Hr].
    pose proof (attempt_files v w args s method (defaultDoc args)) as H2.
    destruct (attempt v w args s method (defaultDoc args))
      as [res|p sofar2] eqn:E2.
    + exists (after sofar res). split; [done|]. split; [done|]. simpl.
      rewrite opened_app, read_app, Ho, Hr. simpl.
      destruct H2 as [[-> ->]|[-> [-> | ->]]].
      * split; [by exists [defaultDoc args]|by left].
      * split; [done|by left].
      * split; [done|right; by exists (defaultDoc args)].
    + apply attempt_goto in E2 as (_ & Hne & _). done.
Qed.

(** X2. The fallback of a single-page application: a path that cannot be
    opened (and is not in the cache) gets the answer of [/], for any
    method: the same calls on the writer and the same maps afterwards. *)
Theorem a_path_that_cannot_be_opened_gets_the_answer_of_root
    (v : Variant) (w : World) (args : Arguments) (s : State) (r : Request)
    (err : string) :
  cache_miss args s (resolve_path args (URLPath r)) ->
  fs w (resolve_path args (URLPath r)) = OpenFails err ->
  exists res root,
    handler v w args s r = Some res /\
    handler v w args s {| Method := Method r; URLPath := "/" |} = Some root /\
    calls res = calls root /\ state res = state root.
Proof.
  intros Hmiss Hfs. unfold handler. simpl.
  destruct (String.eqb (Method r) MethodOptions); [by eexists _, _|].
  rewrite resolve_path_root. simpl.
  destruct (String.eqb (resolve_path args (URLPath r)) (defaultDoc args))
    eqn:Hdd.
  - apply String.eqb_eq in Hdd. rewrite Hdd.
    destruct (attempt_defaultDoc v w args s (Method r)) as [res ->].
    by eexists _, _.
  - rewrite (attempt_open_fails v w args s _ _ err Hmiss Hfs), Hdd. simpl.
    destruct (attempt_defaultDoc v w args s (Method r)) as [res ->].
    by eexists _, _.
Qed.


(** ** The maps across requests *)

Section Maps.
Context (v : Variant) (w : World) (args : Arguments).

(** Finding a content type adds at most one entry to the map of types,
    under an extension that was not in it. *)
Lemma contentType_grows types ext raw :
  types ⊆ (contentType_of w v types ext raw).1.2.
Proof.
  destruct v; simpl.
  - unfold contentType_main. destruct (types !! ext) eqn:Hty; [done|].
    destruct (_ && _); simpl; [by apply insert_subseteq|done].
  - unfold contentType_extended.
    destruct (Nat.ltb 0 (String.length ext)); [|done].
    destruct (types !! ext) eqn:Hty; [done|].
    destruct (Nat.eqb _ 0); destruct (negb _); simpl;
      try done; by apply insert_subseteq.
Qed.

Lemma contentType_clean types ext raw :
  types_clean types -> types_clean (contentType_of w v types ext raw).1.2.
Proof.
  intros Hclean.
  assert (Hins : forall ty, ext <> "" -> ty <> octet_stream ->
                   types_clean (<[ext := ty]> types)).
  { intros ty Hext Hty e t. rewrite lookup_insert.
    case_decide; [by intros [= <-]; subst|apply Hclean]. }
  destruct v; simpl.
  - unfold contentType_main. destruct (types !! ext) eqn:Hty; [done|].
    destruct (negb (String.eqb _ octet_stream)) eqn:Hoct; [|done].
    destruct (negb (Nat.eqb _ 0)) eqn:Hext; [|done]. simpl.
    apply Hins.
    + intros ->. done.
    + apply negb_true_iff, String.eqb_neq in Hoct. done.
  - unfold contentType_extended.
    destruct (Nat.ltb 0 (String.length ext)) eqn:Hext; [|done].
    apply length_pos_nonempty in Hext.
    destruct (types !! ext) eqn:Hty; [done|].
    destruct (Nat.eqb _ 0);
      destruct (negb (String.eqb _ octet_stream)) eqn:Hoct; simpl;
      try done; apply Hins; try done;
      by apply negb_true_iff, String.eqb_neq in Hoct.
Qed.

(** What a pass that returns leaves in the maps. *)
Lemma attempt_maps s method fullpath res :
  attempt v w args s method fullpath = Return res ->
  cache s ⊆ cache (state res) /\ types s ⊆ types (state res) /\
  (MemCache args = false -> cache (state res) = cache s) /\
  (types_clean (types s) -> types_clean (types (state res))).
Proof.
  unfold attempt, cache_lookup.
  destruct (MemCache args) eqn:Hmem.
  - destruct (cache s !! fullpath) as [entry|] eqn:Hc; [by intros [= <-]|].
    destruct (fs w fullpath) as [err|err|raw].
    + destruct (negb _); [done|]. by intros [= <-].
    + by intros [= <-].
    + pose proof (contentType_grows (types s) (Ext fullpath) raw) as Hg.
      pose proof (contentType_clean (types s) (Ext fullpath) raw) as Hcl.
      destruct (contentType_of w v (types s) (Ext fullpath) raw)
        as [[ct types'] resolved].
      intros [= <-]. simpl in *.
      split; [by apply insert_subseteq|]. done.
  - destruct (fs w fullpath) as [err|err|raw].
    + destruct (negb _); [done|]. by intros [= <-].
    + by intros [= <-].
    + pose proof (contentType_grows (types s) (Ext fullpath) raw) as Hg.
      pose proof (contentType_clean (types s) (Ext fullpath) raw) as Hcl.
      destruct (contentType_of w v (types s) (Ext fullpath) raw)
        as [[ct types'] resolved].
      intros [= <-]. simpl in *. done.
Qed.

Lemma handler_maps s r res :
  handler v w args s r = Some res ->
  cache s ⊆ cache (state res) /\ types s ⊆ types (state res) /\
  (MemCache args = false -> cache (state res) = cache s) /\
  (types_clean (types s) -> types_clean (types (state res))).
Proof.
  unfold handler. destruct (String.eqb (Method r) MethodOptions).
  { by intros [= <-]. }
  simpl.
  destruct (attempt v w args s (Method r) (resolve_path args (URLPath r)))
    as [res1|p sofar] eqn:E1.
  { intros [= <-]. by apply attempt_maps in E1. }
  destruct (attempt v w args s (Method r) p) as [res2|p' sofar'] eqn:E2; [|done].
  intros [= <-]. by apply attempt_maps in E2.
Qed.

End Maps.

(** X3. The handler only adds to the two maps: whatever the request, every
    entry of the cache and of the map of types is still there afterwards,
    unchanged; and with the cache off the cache is not written at all. *)
Theorem the_handler_never_replaces_an_entry
    (v : Variant) (w : World) (args : Arguments) (s : State) (r : Request) :
  exists res,
    handler v w args s r = Some res /\
    (forall path entry,
       cache s !! path = Some entry -> cache (state res) !! path = Some entry) /\
    (forall ext ty,
       types s !! ext = Some ty -> types (state res) !! ext = Some ty) /\
    (MemCache args = false -> cache (state res) = cache s).
Proof.
  destruct (handler_returns v w args s r) as [res Hres]. exists res.
  split; [done|].
  destruct (handler_maps v w args s r res Hres) as (Hc & Ht & Hoff & _).
  split; [|split; [|done]].
  - intros path entry H. by eapply lookup_weaken.
  - intros ext ty H. by eapply lookup_weaken.
Qed.

(** X4. Neither variant ever memoizes a type under the empty extension,
    or memoizes the generic type [application/octet-stream]: a map of
    types free of both stays free of both, and the map [main.go] starts
    with is. *)
Theorem the_map_of_types_stays_clean
    (v : Variant) (w : World) (args : Arguments) (s : State) (r : Request) :
  types_clean (types s) ->
  types_clean (initial_types v) /\
  exists res,
    handler v w args s r = Some res /\ types_clean (types (state res)).
Proof.
  intros Hclean. split.
  - intros ext ty. destruct v; simpl; [|by rewrite lookup_empty].
    rewrite !lookup_insert, lookup_empty.
    repeat case_decide; intros [= <-]; by subst.
  - destruct (handler_returns v w args s r) as [res Hres]. exists res.
    split; [done|].
    by apply (handler_maps v w args s r res Hres).
Qed.

(** ** Answers from the cache *)

Section CacheHits.
Context (v : Variant) (w : World) (args : Arguments).
Hypothesis cache_on : MemCache args = true.

(** A pass that served a file is answered from the cache the next time. *)
Lemma attempt_served_again s method fullpath res :
  attempt v w args s method fullpath = Return res ->
  headers (calls res) <> [] ->
  attempt v w args (state res) method fullpath
  = Return {| state := state res; trace := [CacheLoad fullpath];
              calls := calls res |}.
Proof.
  unfold attempt, cache_lookup. rewrite cache_on.
  destruct (cache s !! fullpath) as [entry|] eqn:Hc.
  { intros [= <-] _. simpl. by rewrite Hc. }
  destruct (fs w fullpath) as [err|err|raw].
  - destruct (negb _); [done|]. by intros [= <-].
  - by intros [= <-].
  - destruct (contentType_of w v (types s) (Ext fullpath) raw)
      as [[ct types'] resolved].
    intros [= <-] _. simpl. by rewrite lookup_insert_eq.
Qed.

End CacheHits.

(** X5. With the cache on, a request that was answered with a file is
    answered the second time with the same calls and without reading any
    file: the only file-system operation left is the failed open of a
    path that fell back to the default document.  The maps no longer
    change. *)
Theorem a_cached_answer_is_repeated_without_reading
    (v : Variant) (w : World) (args : Arguments) (s : State) (r : Request)
    (res : Result) :
  MemCache args = true ->
  handler v w args s r = Some res ->
  headers (calls res) <> [] ->
  exists again,
    handler v w args (state res) r = Some again /\
    calls again = calls res /\ state again = state res /\
    read (trace again) = [] /\
    (opened (trace res) = read (trace res) -> opened (trace again) = []).
Proof.
  intros Hmem. unfold handler.
  destruct (String.eqb (Method r) MethodOptions).
  { intros [= <-]. done. }
  simpl.
  pose proof (attempt_files v w args s (Method r)
                (resolve_path args (URLPath r))) as H1.
  destruct (attempt v w args s (Method r) (resolve_path args (URLPath r)))
    as [res1|p sofar] eqn:E1.
  - intros [= <-] Hserved. simpl in *.
    rewrite (attempt_served_again v w args Hmem _ _ _ _ E1 Hserved).
    by eexists.
  - pose proof E1 as Hgoto. apply attempt_goto in Hgoto as (-> & _).
    destruct H1 as [Ho Hr].
    pose proof (attempt_files v w args s (Method r) (defaultDoc args)) as H2.
    destruct (attempt v w args s (Method r) (defaultDoc args))
      as [res2|p sofar2] eqn:E2; [|done].
    intros [= <-] Hserved. simpl in *.
    rewrite (attempt_goto_again v w args (or_intror Hmem) _ _ _ _ _ E1 E2).
    rewrite (attempt_served_again v w args Hmem _ _ _ _ E2 Hserved).
    eexists. split; [done|]. simpl. split; [done|]. split; [done|].
    rewrite !read_app, !opened_app, Ho, Hr. simpl. split; [done|].
    destruct H2 as [[-> ->]|[-> [-> | ->]]]; done.
Qed.

(** ** Extensions the map knows *)

Lemma attempt_known_extension
    (v : Variant) (w : World) (args : Arguments) (s : State)
    (method fullpath ty : string) (raw : bytes) :
  cache_miss args s fullpath ->
  fs w fullpath = Readable raw ->
  Ext fullpath <> "" ->
  types s !! Ext fullpath = Some ty ->
  attempt v w args s method fullpath
  = Return {| state := {| cache := if MemCache args
                                   then <[fullpath := {| Content := raw;
                                                         ContentType := ty |}]>
                                          (cache s)
                                   else cache s;
                          types := types s |};
              trace := looked args fullpath
                         ++ [Open fullpath; ReadAll fullpath;
                             TypesLoad (Ext fullpath)]
                         ++ (if MemCache args then [CacheStore fullpath]
                             else []);
              calls := respond method ty raw |}.
Proof.
  intros Hmiss Hfs Hext Hty.
  unfold attempt. rewrite (cache_lookup_miss _ _ _ Hmiss), Hfs.
  assert (E : contentType_of w v (types s) (Ext fullpath) raw
              = (ty, types s, [TypesLoad (Ext fullpath)])).
  { destruct v; simpl.
    - unfold contentType_main. by rewrite Hty.
    - unfold contentType_extended.
      apply length_pos_nonempty in Hext. by rewrite Hext, Hty. }
  rewrite E. by destruct (MemCache args).
Qed.

(** X6. A file read from disk whose extension is in the map of types is
    answered with the type the map has for it, whatever its content: the
    content is not sniffed, the registry is not asked, and the map is left
    as it is. *)
Theorem a_known_extension_is_answered_from_the_map
    (v : Variant) (w : World) (args : Arguments) (s : State)
    (method fullpath ty : string) (raw : bytes) :
  cache_miss args s fullpath ->
  fs w fullpath = Readable raw ->
  Ext fullpath <> "" ->
  types s !! Ext fullpath = Some ty ->
  exists res,
    attempt v w args s method fullpath = Return res /\
    calls res = respond method ty raw /\
    trace res = looked args fullpath
                  ++ [Open fullpath; ReadAll fullpath; TypesLoad (Ext fullpath)]
                  ++ (if MemCache args then [CacheStore fullpath] else []) /\
    types (state res) = types s.
Proof.
  intros Hmiss Hfs Hext Hty.
  rewrite (attempt_known_extension v w args s method fullpath ty raw) by done.
  by eexists.
Qed.

(** X7. Memoization is per extension, in the extended variant: once a file
    with an unknown extension has been read and its type found, and that
    type is not the generic one, any other file with the same extension is
    answered with the type of the first file, and its own content is not
    looked at. *)
Theorem the_type_of_the_first_file_is_reused_for_its_extension
    (w : World) (args : Arguments) (s : State)
    (method fullpath fullpath' : string) (raw raw' : bytes) :
  cache_miss args s fullpath ->
  fs w fullpath = Readable raw ->
  Ext fullpath <> "" ->
  types s !! Ext fullpath = None ->
  discovered w (Ext fullpath) raw <> octet_stream ->
  Ext fullpath' = Ext fullpath ->
  fs w fullpath' = Readable raw' ->
  exists first,
    attempt Extended w args s method fullpath = Return first /\
    (cache_miss args (state first) fullpath' ->
     exists second,
       attempt Extended w args (state first) method fullpath' = Return second /\
       calls second = respond method (discovered w (Ext fullpath) raw) raw' /\
       sniffed (trace second) = []).
Proof.
  intros Hmiss Hfs Hext Hty Hoct Hsame Hfs'.
  assert (Hstored : exists first,
    attempt Extended w args s method fullpath = Return first /\
    types (state first) !! Ext fullpath
    = Some (discovered w (Ext fullpath) raw)).
  { unfold attempt. rewrite (cache_lookup_miss _ _ _ Hmiss), Hfs. simpl.
    unfold contentType_extended.
    pose proof Hext as Hlen. apply length_pos_nonempty in Hlen.
    rewrite Hlen, Hty. unfold discovered in Hoct |- *.
    destruct (Nat.eqb (String.length (TypeByExtension w (Ext fullpath))) 0);
      apply String.eqb_neq in Hoct; rewrite Hoct; simpl;
      destruct (MemCache args); eexists; (split; [reflexivity|]);
      simpl; by rewrite lookup_insert_eq. }
  destruct Hstored as (first & Hfirst & Hstored). exists first.
  split; [done|]. intros Hmiss'.
  rewrite (attempt_known_extension Extended w args (state first) method
             fullpath' (discovered w (Ext fullpath) raw) raw')
    by (by rewrite ?Hsame).
  eexists. split; [done|]. split; [done|]. simpl.
  rewrite sniffed_app. unfold looked.
  by destruct (MemCache args).
Qed.


(** ** What the loader leaves in the cache *)

Section Loading.
Context (w : World).

Lemma walk_node_dir dir name files :
  walk_node dir (Dir name (Got files)) = walk (Join dir name) files.
Proof.
  simpl. induction files as [|f files IH]; [done|]. simpl. by rewrite IH.
Qed.

Lemma loads_nil s : loads [] s s.
Proof. split; [done|]. intros _. constructor. Qed.

Lemma loads_app a b s1 s2 s3 :
  loads a s1 s2 -> loads b s2 s3 -> loads (a ++ b) s1 s3.
Proof.
  intros [Ha1 Ha2] [Hb1 Hb2]. split.
  - intros q Hq. rewrite fmap_app in Hq.
    apply not_elem_of_app in Hq as [Hqa Hqb].
    by rewrite Hb1, Ha1.
  - rewrite fmap_app. intros Hnd. apply NoDup_app in Hnd as (Hnda & Hdis & Hndb).
    apply Forall_app. split; [|by apply Hb2].
    specialize (Ha2 Hnda). rewrite Forall_forall in Ha2 |- *.
    intros [p raw] Hin. destruct (Ha2 _ Hin) as (entry & He & Hc).
    exists entry. split; [|done]. simpl in *.
    rewrite Hb1; [done|]. apply Hdis.
    apply list_elem_of_fmap. by exists (p, raw).
Qed.

Lemma precache_range_loads files :
  Forall (fun f => forall s dir size sz s',
            precache_entry w s dir size f = Returns sz None s' ->
            loads (walk_node dir f) s s') files ->
  forall s dir size sz s',
    precache_range w files s dir size = Returns sz None s' ->
    loads (walk dir files) s s'.
Proof.
  induction 1 as [|f files Hf _ IH]; intros s dir size sz s'.
  - intros [= _ <-]. apply loads_nil.
  - simpl.
    destruct (precache_entry w s dir size f) as [err|sz1 [err|] s1] eqn:E1;
      [done|done|].
    intros E2. eapply loads_app; [by eapply Hf|by eapply IH].
Qed.

Lemma precache_entry_loads file s dir size sz s' :
  precache_entry w s dir size file = Returns sz None s' ->
  loads (walk_node dir file) s s'.
Proof.
  revert s dir size sz s'.
  induction file as [name [err|raw]|name err|name files IH]
    using Node_nested_ind; intros s dir size sz s'.
  - done.
  - simpl. destruct (contentType_extended _ _ _ _) as [[ct types'] tr].
    intros [= _ <-]. split.
    + intros q Hq. simpl in *. apply not_elem_of_cons in Hq as [Hq _].
      by rewrite lookup_insert_ne.
    + intros _. repeat constructor. eexists. simpl.
      by rewrite lookup_insert_eq.
  - done.
  - rewrite precache_entry_dir, walk_node_dir.
    destruct (precache_range w files s (Join dir name) 0)
      as [err|sub [err|] s1] eqn:E; [done|done|].
    intros [= _ <-].
    destruct (precache_range_loads files IH _ _ _ _ _ E) as [H1 H2].
    by split.
Qed.

End Loading.

(** X8. The loader never returns an error: it panics when a directory of
    the tree cannot be listed or a file cannot be read, and only then;
    otherwise its second result is [nil]. *)
Theorem precache_panics_or_returns_no_error
    (w : World) (s : State) (dir : string) (listing : Outcome (list Node)) :
  match precache w s dir listing with
  | Panic _ => listing_readable listing = false
  | Returns _ err _ => err = None /\ listing_readable listing = true
  end.
Proof.
  destruct listing as [err|files]; [done|]. simpl.
  assert (Hall : Forall (entry_spec w) files).
  { apply Forall_forall. intros f _. apply precache_entry_spec. }
  pose proof (precache_range_spec w files Hall s dir 0%Z) as Hr.
  destruct (tree_readable files).
  - destruct Hr as [s' ->]; [lia|]. done.
  - destruct Hr as [err ->]; [lia|]. done.
Qed.

Lemma precache_loads
    (w : World) (s : State) (dir : string) (files : list Node) :
  tree_readable files = true ->
  exists size s',
    precache w s dir (Got files) = Returns size None s' /\
    loads (walk dir files) s s'.
Proof.
  intros Hread. unfold precache.
  assert (Hall : Forall (entry_spec w) files).
  { apply Forall_forall. intros f _. apply precache_entry_spec. }
  pose proof (precache_range_spec w files Hall s dir 0%Z) as Hr.
  rewrite Hread in Hr. destruct Hr as [s' Hs']; [lia|].
  exists (wrap64 (0 + tree_bytes files)), s'. split; [done|].
  eapply precache_range_loads; [|exact Hs'].
  apply Forall_forall. intros f _ s0 dir0 size0 sz0 s0'.
  apply precache_entry_loads.
Qed.

(** X9. After the loader has walked a readable tree in which no two files
    come out under the same path, the cache holds every file of the tree
    under its path, with its content; paths outside the walk are as they
    were. *)
Theorem precache_fills_the_cache
    (w : World) (s : State) (dir : string) (files : list Node) :
  tree_readable files = true ->
  NoDup (walk_paths dir files) ->
  exists size s',
    precache w s dir (Got files) = Returns size None s' /\
    Forall (cached_as s') (walk dir files) /\
    (forall q, q ∉ walk_paths dir files -> cache s' !! q = cache s !! q).
Proof.
  intros Hread Hnd.
  destruct (precache_loads w s dir files Hread) as (size & s' & Hs' & H1 & H2).
  exists size, s'. split; [done|]. split; [by apply H2|exact H1].
Qed.

(** ** Start-up *)

(** X10. The extended variant starts serving only if the start-up check
    on the default document holds and, with [--load], the whole tree could
    be read; [--load] turns the cache on; without it the handler starts
    with empty maps.  In every other case [main] panics. *)
Theorem startup_serves_only_after_its_checks
    (w : World) (args : Arguments) (listing : Outcome (list Node)) :
  match startup w args listing with
  | Serving args' s =>
      startup_ok args' = true /\
      DefaultDoc args' = DefaultDoc args /\
      Directory args' = Directory args /\
      MemCache args' = MemCache args || LoadCache args /\
      (LoadCache args = true -> listing_readable listing = true) /\
      (LoadCache args = false -> s = {| cache := ∅; types := ∅ |})
  | Crashed _ =>
      startup_ok args = false \/
      (LoadCache args = true /\ listing_readable listing = false)
  end.
Proof.
  unfold startup. set (s0 := {| cache := _; types := _ |}).
  destruct (LoadCache args) eqn:Hload.
  - change (startup_ok (enable_cache args)) with (startup_ok args).
    change (Directory (enable_cache args)) with (Directory args).
    destruct listing as [err|files]; [by right|].
    assert (Hall : Forall (entry_spec w) files).
    { apply Forall_forall. intros f _. apply precache_entry_spec. }
    pose proof (precache_range_spec w files Hall s0 (Directory args) 0%Z)
      as Hr.
    unfold precache, listing_readable.
    destruct (tree_readable files).
    + destruct Hr as [s' ->]; [lia|].
      destruct (startup_ok args) eqn:Hok; simpl; [|by left].
      change (startup_ok (enable_cache args)) with (startup_ok args).
      by rewrite Hok, orb_true_r.
    + destruct Hr as [err ->]; [lia|]. by right.
  - destruct (startup_ok args) eqn:Hok; simpl; [|by left].
    by rewrite Hok, orb_false_r.
Qed.

(** X11. A file loaded at start-up is answered from memory: with [--load],
    after a start-up on a readable tree, a request that resolves to the
    path of a file of the tree gets the content the loader read, and the
    handler does nothing but look the path up in the cache, whatever the
    file system has become since. *)
Theorem a_preloaded_file_is_answered_from_memory
    (w w' : World) (args : Arguments) (files : list Node) (r : Request)
    (path : string) (raw : bytes) :
  LoadCache args = true ->
  startup_ok args = true ->
  tree_readable files = true ->
  NoDup (walk_paths (Directory args) files) ->
  (path, raw) ∈ walk (Directory args) files ->
  resolve_path args (URLPath r) = path ->
  String.eqb (Method r) MethodOptions = false ->
  exists s contentType,
    startup w args (Got files) = Serving (enable_cache args) s /\
    handler Extended w' (enable_cache args) s r
    = Some {| state := s; trace := [CacheLoad path];
              calls := respond (Method r) contentType raw |}.
Proof.
  intros Hload Hok Hread Hnd Hin Hres Hm.
  destruct (precache_loads w {| cache := ∅; types := ∅ |}
              (Directory args) files Hread) as (size & s & Hs & _ & Hall).
  specialize (Hall Hnd). rewrite Forall_forall in Hall.
  destruct (Hall _ Hin) as (entry & Hentry & Hcontent).
  simpl in Hentry, Hcontent.
  exists s, (ContentType entry). split.
  - unfold startup. rewrite Hload. cbv zeta.
    change (Directory (enable_cache args)) with (Directory args).
    rewrite Hs.
    change (startup_ok (enable_cache args)) with (startup_ok args).
    by rewrite Hok.
  - unfold handler. rewrite Hm. simpl.
    change (resolve_path (enable_cache args) (URLPath r))
      with (resolve_path args (URLPath r)).
    rewrite Hres. unfold attempt, cache_lookup. simpl.
    by rewrite Hentry, Hcontent.
Qed.

(** ** The shape of a resolved path *)

Section CleanPaths.

Lemma elements_have_no_slash path :
  Forall (fun e => has_slash e = false) (elements path).
Proof.
  induction path as [|c rest IH]; [by repeat constructor|]. simpl.
  destruct (Ascii.eqb c slash) eqn:Hc; [by constructor|].
  destruct (elements rest) as [|e es]; [by repeat constructor; simpl; rewrite Hc|].
  inversion IH as [|? ? He Hes]; subst. constructor; [|done].
  simpl. by rewrite Hc.
Qed.

Lemma clean_elem_keeps_ordinary out e :
  has_slash e = false ->
  forallb ordinary out = true ->
  forallb ordinary (clean_elem true out e) = true.
Proof.
  intros He Hout. unfold clean_elem.
  destruct (String.eqb e "") eqn:E1; [done|].
  destruct (String.eqb e ".") eqn:E2; [done|].
  destruct (String.eqb e "..") eqn:E3.
  - destruct out as [|last before]; [done|].
    simpl in Hout. apply andb_true_iff in Hout as [Hlast Hbefore].
    destruct (String.eqb last "..") eqn:E4; [|done].
    unfold ordinary in Hlast. rewrite E4 in Hlast.
    by rewrite !andb_false_r in Hlast.
  - simpl. rewrite Hout, andb_true_r. unfold ordinary.
    by rewrite E1, E2, E3, He.
Qed.

Lemma clean_keeps_ordinary elems out :
  Forall (fun e => has_slash e = false) elems ->
  forallb ordinary out = true ->
  forallb ordinary (fold_left (clean_elem true) elems out) = true.
Proof.
  intros Hall. revert out.
  induction Hall as [|e elems He _ IH]; intros out Hout; [done|].
  simpl. apply IH. by apply clean_elem_keeps_ordinary.
Qed.

(** A rooted path is cleaned to an absolute path of ordinary elements. *)
Lemma Clean_rooted path :
  is_rooted path = true ->
  exists elems, forallb ordinary elems = true /\ Clean path = absolute elems.
Proof.
  intros Hroot. unfold Clean.
  destruct path as [|c rest]; [done|]. simpl String.eqb. cbv iota.
  rewrite Hroot.
  exists (rev (fold_left (clean_elem true) (elements (String c rest)) [])).
  split; [|done].
  rewrite forallb_forall. intros e He. apply in_rev in He.
  pose proof (clean_keeps_ordinary (elements (String c rest)) []
                (elements_have_no_slash _) eq_refl) as H.
  rewrite forallb_forall in H. by apply H.
Qed.

Lemma Join_rooted dir path :
  is_rooted dir = true ->
  exists elems, forallb ordinary elems = true /\ Join dir path = absolute elems.
Proof.
  intros Hroot. unfold Join.
  destruct dir as [|c dir]; [done|]. simpl negb. cbv iota.
  apply Clean_rooted. by rewrite app_cons.
Qed.

Lemma absolute_has_no_traversal elems :
  forallb ordinary elems = true -> has_traversal (absolute elems) = false.
Proof.
  intros Hall. unfold has_traversal, absolute.
  rewrite elements_slash.
  apply not_true_iff_false. intros Hex.
  apply existsb_exists in Hex as (x & Hin & Hx).
  apply String.eqb_eq in Hx. subst x.
  destruct Hin as [Hin|Hin]; [done|].
  destruct elems as [|e elems].
  { destruct Hin as [Hin|Hin]; done. }
  rewrite elements_JoinSlash in Hin by done.
  rewrite forallb_forall in Hall. specialize (Hall _ Hin).
  unfold ordinary in Hall. done.
Qed.

End CleanPaths.

(** X12. Served from an absolute directory, every request path resolves to
    a cleaned absolute path: a separator followed by ordinary elements,
    with no empty element, no [.] and no [..] left in it, whatever the
    request contained. *)
Theorem every_resolved_path_is_clean (args : Arguments) (path : string) :
  is_rooted (Directory args) = true ->
  exists elems,
    forallb ordinary elems = true /\
    resolve_path args path = absolute elems /\
    has_traversal (resolve_path args path) = false.
Proof.
  intros Hroot.
  assert (H : exists elems, forallb ordinary elems = true /\
                            resolve_path args path = absolute elems).
  { unfold resolve_path, defaultDoc.
    destruct (negb _); by apply Join_rooted. }
  destruct H as (elems & Hall & ->). exists elems.
  split; [done|]. split; [done|]. by apply absolute_has_no_traversal.
Qed.


(** ** The first variant *)

Section LegacyFacts.
Context (w : World) (args : Arguments).

Lemma legacy_attempt_goto s fullpath p sofar :
  Legacy.attempt w args s fullpath = GotoAgain p sofar ->
  p = defaultDoc args /\ fullpath <> defaultDoc args.
Proof.
  unfold Legacy.attempt.
  destruct (cache_lookup args s fullpath) as [[entry|] lk]; [done|].
  destruct (fs w fullpath) as [err|err|raw].
  - destruct (negb _) eqn:Hdd; [|done]. intros [= <- _].
    split; [done|]. by apply negb_true_iff, String.eqb_neq in Hdd.
  - done.
  - destruct (Legacy.contentType w (types s) (Ext fullpath) raw)
      as [[ct types'] resolved].
    by destruct (MemCache args).
Qed.

(** One pass of the first variant against one pass of [main.go], from the
    same maps, for a method that is not HEAD. *)
Lemma legacy_attempt_main s method fullpath :
  String.eqb method MethodHead = false ->
  match Legacy.attempt w args s fullpath,
        attempt MainGo w args s method fullpath with
  | Return old, Return new =>
      calls old = without_length (calls new) /\
      cache (state old) = cache (state new) /\
      (forall ext, ext <> "" ->
         types (state old) !! ext = types (state new) !! ext)
  | GotoAgain p _, GotoAgain p' _ => p = p'
  | _, _ => False
  end.
Proof.
  intros Hm. unfold Legacy.attempt, attempt, respond, Legacy.respond.
  rewrite Hm.
  destruct (cache_lookup args s fullpath) as [[entry|] lk]; [done|].
  destruct (fs w fullpath) as [err|err|raw];
    [by destruct (negb _)|done|].
  simpl. unfold Legacy.contentType, contentType_main.
  destruct (types s !! Ext fullpath) as [t|] eqn:Hty.
  { by destruct (MemCache args). }
  destruct (negb (String.eqb _ octet_stream)); simpl.
  - destruct (negb (Nat.eqb (String.length (Ext fullpath)) 0)) eqn:Hext;
      simpl; destruct (MemCache args); simpl; repeat split; try done.
    all: intros ext Hne; apply negb_false_iff, length_zero_empty in Hext.
    all: rewrite lookup_insert_ne; [done|congruence].
  - by destruct (MemCache args).
Qed.

End LegacyFacts.

(** X13. The first variant against [main.go]: for a method other than
    OPTIONS and HEAD and from the same maps, both answer with the same
    calls on the writer except that the first variant sends no
    Content-Length; they leave the same cache, and the same map of types
    except possibly for the empty extension. *)
Theorem the_first_variant_answers_like_main_go_without_length
    (w : World) (args : Arguments) (s : State) (r : Request) :
  String.eqb (Method r) MethodOptions = false ->
  String.eqb (Method r) MethodHead = false ->
  exists old new,
    Legacy.handler w args s r = Some old /\
    handler MainGo w args s r = Some new /\
    calls old = without_length (calls new) /\
    cache (state old) = cache (state new) /\
    (forall ext, ext <> "" ->
       types (state old) !! ext = types (state new) !! ext).
Proof.
  intros Hopt Hhead. unfold Legacy.handler, handler. rewrite Hopt. simpl.
  pose proof (legacy_attempt_main w args s (Method r)
                (resolve_path args (URLPath r)) Hhead) as H1.
  destruct (Legacy.attempt w args s (resolve_path args (URLPath r)))
    as [old1|p sofar] eqn:E1;
    destruct (attempt MainGo w args s (Method r) (resolve_path args (URLPath r)))
    as [new1|p' sofar'] eqn:E1'; try done.
  { by eexists _, _. }
  subst p'. apply legacy_attempt_goto in E1 as [-> Hne].
  pose proof (legacy_attempt_main w args s (Method r) (defaultDoc args) Hhead)
    as H2.
  destruct (attempt_defaultDoc MainGo w args s (Method r)) as [new2 E2'].
  rewrite E2' in H2 |- *.
  destruct (Legacy.attempt w args s (defaultDoc args))
    as [old2|p sofar2] eqn:E2; [|done].
  by eexists _, _.
Qed.

(** X14. The first variant memoizes under any extension, the empty one
    included.  A file whose extension is not in the map is answered with
    an empty Content-Type; when the type sniffed from it is not the
    generic one, any later file with the same extension (or likewise
    without extension) is answered with the type sniffed from the first
    file, and is not sniffed itself. *)
Theorem the_first_variant_memoizes_under_any_extension
    (w : World) (args : Arguments) (s : State)
    (fullpath fullpath' : string) (raw raw' : bytes) :
  cache_miss args s fullpath ->
  fs w fullpath = Readable raw ->
  types s !! Ext fullpath = None ->
  DetectContentType w (firstn 512 raw) <> octet_stream ->
  Ext fullpath' = Ext fullpath ->
  fs w fullpath' = Readable raw' ->
  exists first,
    Legacy.attempt w args s fullpath = Return first /\
    calls first = Legacy.respond "" raw /\
    (cache_miss args (state first) fullpath' ->
     exists second,
       Legacy.attempt w args (state first) fullpath' = Return second /\
       calls second
         = Legacy.respond (DetectContentType w (firstn 512 raw)) raw' /\
       sniffed (trace second) = []).
Proof.
  intros Hmiss Hfs Hty Hoct Hsame Hfs'.
  unfold Legacy.attempt at 1.
  rewrite (cache_lookup_miss _ _ _ Hmiss), Hfs.
  unfold Legacy.contentType. rewrite Hty, sniff_window_firstn.
  apply String.eqb_neq in Hoct. rewrite Hoct. simpl.
  assert (Hsecond : forall c,
    cache_miss args {| cache := c;
                       types := <[Ext fullpath
                                  := DetectContentType w (firstn 512 raw)]>
                                  (types s) |} fullpath' ->
    exists second,
      Legacy.attempt w args
        {| cache := c;
           types := <[Ext fullpath := DetectContentType w (firstn 512 raw)]>
                      (types s) |} fullpath' = Return second /\
      calls second
        = Legacy.respond (DetectContentType w (firstn 512 raw)) raw' /\
      sniffed (trace second) = []).
  { intros c Hmiss'. unfold Legacy.attempt.
    rewrite (cache_lookup_miss _ _ _ Hmiss'), Hfs'. simpl.
    unfold Legacy.contentType. rewrite Hsame, lookup_insert_eq.
    unfold looked.
    destruct (MemCache args); eexists; (split; [reflexivity|]); done. }
  destruct (MemCache args) eqn:Hmem; eexists; (split; [reflexivity|]);
    (split; [done|]); apply Hsecond.
Qed.


(** ** The paths of the loader and the paths of the handler *)

Section LoaderPaths.

Lemma node_named_dir name files :
  node_named (Dir name (Got files)) = ordinary name && tree_named files.
Proof.
  simpl. destruct (ordinary name); [|done]. simpl.
  induction files as [|f files IH]; [done|]. simpl. by rewrite IH.
Qed.

Lemma Join_name relems name :
  forallb ordinary relems = true -> ordinary name = true ->
  Join (absolute relems) name = absolute (relems ++ [name]).
Proof.
  intros Hr Hn. rewrite <- Join_leading_slash by done.
  apply (Join_absolute relems [name]); [done|]. simpl. by rewrite Hn.
Qed.

Lemma below_deeper relems name path :
  ordinary name = true -> below (relems ++ [name]) path -> below relems path.
Proof.
  intros Hn (names & Hne & Hall & ->). exists (name :: names).
  split; [done|]. split; [simpl; by rewrite Hn|].
  by rewrite <- app_assoc.
Qed.

Lemma walk_node_below n :
  node_named n = true ->
  forall relems, forallb ordinary relems = true ->
    Forall (fun file => below relems file.1) (walk_node (absolute relems) n).
Proof.
  induction n as [name [err|raw]|name err|name files IH]
    using Node_nested_ind; intros Hnamed relems Hr.
  - constructor.
  - simpl in *. repeat constructor. exists [name].
    split; [done|]. split; [simpl; by rewrite Hnamed|].
    by apply Join_name.
  - constructor.
  - rewrite node_named_dir in Hnamed.
    apply andb_true_iff in Hnamed as [Hn Hfiles].
    rewrite walk_node_dir, Join_name by done.
    assert (Hr' : forallb ordinary (relems ++ [name]) = true).
    { rewrite forallb_app, Hr. simpl. by rewrite Hn. }
    induction IH as [|f files Hf _ IHfiles]; [constructor|].
    simpl in Hfiles. apply andb_true_iff in Hfiles as [Hf' Hfiles].
    simpl. apply Forall_app. split; [|by apply IHfiles].
    eapply Forall_impl; [by apply Hf|].
    intros file. by apply below_deeper.
Qed.

Lemma walk_below files relems :
  tree_named files = true -> forallb ordinary relems = true ->
  Forall (fun file => below relems file.1) (walk (absolute relems) files).
Proof.
  intros Hnamed Hr. induction files as [|f files IH]; [constructor|].
  simpl in Hnamed. apply andb_true_iff in Hnamed as [Hf Hfiles].
  simpl. apply Forall_app. split; [by apply walk_node_below|by apply IH].
Qed.

End LoaderPaths.

(** X15. The loader and the handler agree on paths.  With a cleaned
    absolute directory, the loader stores every file of the tree under the
    directory's elements followed by the names that lead to the file, and
    that is the path to which the handler resolves the URL path made of
    those names: a descendant of the served directory. *)
Theorem the_loader_stores_files_where_the_handler_looks
    (args : Arguments) (relems : list string) (files : list Node)
    (path : string) (raw : bytes) :
  Directory args = absolute relems ->
  forallb ordinary relems = true ->
  tree_named files = true ->
  (path, raw) ∈ walk (Directory args) files ->
  exists names,
    names <> [] /\ forallb ordinary names = true /\
    path = absolute (relems ++ names) /\
    resolve_path args (absolute names) = path /\
    descendant (Directory args) path.
Proof.
  intros Hdir Hr Hnamed Hin. rewrite Hdir in Hin.
  pose proof (walk_below files relems Hnamed Hr) as Hall.
  rewrite Forall_forall in Hall.
  destruct (Hall _ Hin) as (names & Hne & Hnames & Hpath). simpl in Hpath.
  exists names. split; [done|]. split; [done|]. split; [done|]. split.
  - rewrite resolve_path_kept.
    + rewrite Hdir, Hpath. by apply Join_absolute.
    + by apply absolute_not_root.
    + rewrite Hdir, Join_absolute by done. apply absolute_prefix.
  - exists relems, names. rewrite forallb_app, Hr, Hnames. done.
Qed.


(** ** More theorems at concrete inputs *)

Lemma the_loop_ends_within_two_passes_with_fuel_five :
  exists res,
    serve MainGo Sample.world Sample.data_site 5 (initial_state MainGo)
          MethodGet "/data/missing" [] = Some res /\
    opened (trace res) `prefix_of` ["/data/missing"; "/data/index.html"].
Proof.
  destruct (the_loop_ends_within_two_passes MainGo Sample.world
              Sample.data_site (initial_state MainGo) MethodGet
              "/data/missing" 5) as (res & H1 & _ & H2 & _).
  - lia.
  - exists res. split; [exact H1|exact H2].
Defined.

Lemma a_missing_path_gets_the_answer_of_root :
  exists res root,
    handler MainGo Sample.world (Sample.site false) (initial_state MainGo)
            (Sample.get "/missing") = Some res /\
    handler MainGo Sample.world (Sample.site false) (initial_state MainGo)
            (Sample.get "/") = Some root /\
    calls res = calls root.
Proof.
  destruct (a_path_that_cannot_be_opened_gets_the_answer_of_root MainGo
              Sample.world (Sample.site false) (initial_state MainGo)
              (Sample.get "/missing")
              "open /srv/www/missing: no such file or directory")
    as (res & root & H1 & H2 & H3 & _).
  - reflexivity.
  - reflexivity.
  - exists res, root. split; [exact H1|]. split; [exact H2|exact H3].
Defined.

Lemma the_seeded_types_survive_a_request :
  exists res,
    handler MainGo Sample.world (Sample.site true) (initial_state MainGo)
            (Sample.get "/logo.png") = Some res /\
    types (state res) !! ".js" = Some "application/javascript".
Proof.
  destruct (the_handler_never_replaces_an_entry MainGo Sample.world
              (Sample.site true) (initial_state MainGo)
              (Sample.get "/logo.png")) as (res & H1 & _ & H2 & _).
  exists res. split; [exact H1|]. apply H2. reflexivity.
Defined.

Lemma the_map_of_types_stays_clean_from_empty :
  exists res,
    handler Extended Sample.world (Sample.site true) (initial_state Extended)
            (Sample.get "/pixel.bin") = Some res /\
    types_clean (types (state res)).
Proof.
  destruct (the_map_of_types_stays_clean Extended Sample.world
              (Sample.site true) (initial_state Extended)
              (Sample.get "/pixel.bin")) as [_ H].
  - intros ext ty Hl. simpl in Hl. rewrite lookup_empty in Hl. discriminate.
  - exact H.
Defined.

Lemma a_cached_answer_is_repeated_for_the_logo :
  exists res again,
    handler MainGo Sample.world (Sample.site true) (initial_state MainGo)
            (Sample.get "/logo.png") = Some res /\
    handler MainGo Sample.world (Sample.site true) (state res)
            (Sample.get "/logo.png") = Some again /\
    calls again = calls res /\ read (trace again) = [].
Proof.
  destruct (handler MainGo Sample.world (Sample.site true)
              (initial_state MainGo) (Sample.get "/logo.png"))
    as [res|] eqn:E; [|vm_compute in E; discriminate].
  destruct (a_cached_answer_is_repeated_without_reading MainGo Sample.world
              (Sample.site true) (initial_state MainGo)
              (Sample.get "/logo.png") res)
    as (again & H1 & H2 & _ & H3 & _).
  - reflexivity.
  - exact E.
  - vm_compute in E. injection E as <-. discriminate.
  - exists res, again. split; [reflexivity|].
    split; [exact H1|]. split; [exact H2|exact H3].
Defined.

Lemma a_known_extension_is_answered_from_the_map_for_html :
  exists res,
    attempt MainGo Sample.world (Sample.site false) (initial_state MainGo)
            MethodGet "/srv/www/index.html" = Return res /\
    calls res = respond MethodGet "text/html" (Sample.text "<html></html>").
Proof.
  destruct (a_known_extension_is_answered_from_the_map MainGo Sample.world
              (Sample.site false) (initial_state MainGo) MethodGet
              "/srv/www/index.html" "text/html"
              (Sample.text "<html></html>")) as (res & H1 & H2 & _).
  - reflexivity.
  - reflexivity.
  - vm_compute. discriminate.
  - reflexivity.
  - exists res. split; [exact H1|exact H2].
Defined.

Lemma the_type_of_pixel_bin_is_reused_for_notes_bin :
  exists first second,
    attempt Extended Fixture.world (Sample.site false)
            (initial_state Extended) MethodGet "/srv/www/pixel.bin"
      = Return first /\
    attempt Extended Fixture.world (Sample.site false) (state first)
            MethodGet "/srv/www/notes.bin" = Return second /\
    headers (calls second)
      = [("Content-Type", "image/png"); ("Content-Length", "11")].
Proof.
  destruct (the_type_of_the_first_file_is_reused_for_its_extension
              Fixture.world (Sample.site false) (initial_state Extended)
              MethodGet "/srv/www/pixel.bin" "/srv/www/notes.bin"
              Sample.logo (Sample.text "plain words"))
    as (first & H1 & H2).
  - reflexivity.
  - reflexivity.
  - vm_compute. discriminate.
  - reflexivity.
  - vm_compute. discriminate.
  - reflexivity.
  - reflexivity.
  - destruct H2 as (second & H3 & H4 & _); [reflexivity|].
    exists first, second. split; [exact H1|]. split; [exact H3|].
    rewrite H4. reflexivity.
Defined.

Lemma the_sample_tree_is_readable :
  listing_readable (Got Sample.tree) = true.
Proof.
  pose proof (precache_panics_or_returns_no_error Sample.world
                (initial_state Extended) "/srv/www" (Got Sample.tree)) as H.
  vm_compute in H. exact (proj2 H).
Defined.

Lemma the_sample_paths_are_distinct :
  NoDup (walk_paths "/srv/www" Sample.tree).
Proof. unfold walk_paths. compute_done. Qed.

Lemma precache_fills_the_cache_with_the_sample :
  exists size s',
    precache Sample.world (initial_state Extended) "/srv/www"
             (Got Sample.tree) = Returns size None s' /\
    cached_as s' ("/srv/www/img/logo.png", Sample.logo).
Proof.
  destruct (precache_fills_the_cache Sample.world (initial_state Extended)
              "/srv/www" Sample.tree) as (size & s' & H1 & H2 & _).
  - reflexivity.
  - apply the_sample_paths_are_distinct.
  - exists size, s'. split; [exact H1|].
    rewrite Forall_forall in H2. apply H2.
    apply list_elem_of_In. vm_compute. tauto.
Defined.

Lemma startup_of_the_sample_turns_the_cache_on :
  exists s,
    startup Sample.world Fixture.loading (Got Sample.tree)
    = Serving (enable_cache Fixture.loading) s.
Proof.
  pose proof (startup_serves_only_after_its_checks Sample.world
                Fixture.loading (Got Sample.tree)) as H.
  destruct (startup Sample.world Fixture.loading (Got Sample.tree))
    as [msg|args' s] eqn:E.
  - vm_compute in H. destruct H as [H|[_ H]]; discriminate H.
  - vm_compute in E. injection E as <- <-. eexists. vm_compute. reflexivity.
Defined.

Lemma a_preloaded_logo_is_answered_offline :
  exists s contentType,
    startup Sample.world Fixture.loading (Got Sample.tree)
    = Serving (enable_cache Fixture.loading) s /\
    handler Extended Fixture.offline (enable_cache Fixture.loading) s
            (Sample.get "/img/logo.png")
    = Some {| state := s; trace := [CacheLoad "/srv/www/img/logo.png"];
              calls := respond MethodGet contentType Sample.logo |}.
Proof.
  apply (a_preloaded_file_is_answered_from_memory Sample.world Fixture.offline
           Fixture.loading Sample.tree (Sample.get "/img/logo.png")
           "/srv/www/img/logo.png" Sample.logo).
  - reflexivity.
  - reflexivity.
  - reflexivity.
  - apply the_sample_paths_are_distinct.
  - apply list_elem_of_In. vm_compute. tauto.
  - reflexivity.
  - reflexivity.
Defined.

Lemma a_resolved_path_has_no_dots :
  has_traversal (resolve_path (Sample.site false) "/a/../../b/./c//") = false.
Proof.
  destruct (every_resolved_path_is_clean (Sample.site false)
              "/a/../../b/./c//") as (elems & _ & _ & H).
  - reflexivity.
  - exact H.
Defined.

Lemma the_first_variant_answers_readme_like_main_go :
  exists old new,
    Legacy.handler Sample.world (Sample.site false) (initial_state MainGo)
                   (Sample.get "/README") = Some old /\
    handler MainGo Sample.world (Sample.site false) (initial_state MainGo)
            (Sample.get "/README") = Some new /\
    calls old = without_length (calls new).
Proof.
  destruct (the_first_variant_answers_like_main_go_without_length
              Sample.world (Sample.site false) (initial_state MainGo)
              (Sample.get "/README")) as (old & new & H1 & H2 & H3 & _).
  - reflexivity.
  - reflexivity.
  - exists old, new. split; [exact H1|]. split; [exact H2|exact H3].
Defined.

Lemma the_first_variant_takes_a_logo_for_text :
  exists first second,
    Legacy.attempt Fixture.world (Sample.site false) (initial_state MainGo)
                   "/srv/www/README" = Return first /\
    Legacy.attempt Fixture.world (Sample.site false) (state first)
                   "/srv/www/logo" = Return second /\
    calls second = [HeaderAdd "Content-Type" "text/plain; charset=utf-8";
                    Write Sample.logo].
Proof.
  destruct (the_first_variant_memoizes_under_any_extension Fixture.world
              (Sample.site false) (initial_state MainGo)
              "/srv/www/README" "/srv/www/logo"
              (Sample.text "hello") Sample.logo) as (first & H1 & _ & H2).
  - reflexivity.
  - reflexivity.
  - reflexivity.
  - vm_compute. discriminate.
  - reflexivity.
  - reflexivity.
  - destruct H2 as (second & H3 & H4 & _); [reflexivity|].
    exists first, second. split; [exact H1|]. split; [exact H3|].
    rewrite H4. reflexivity.
Defined.

Lemma the_loader_stores_the_logo_where_the_handler_looks :
  exists names,
    resolve_path (Sample.site true) (absolute names)
    = "/srv/www/img/logo.png".
Proof.
  destruct (the_loader_stores_files_where_the_handler_looks
              (Sample.site true) ["srv"; "www"] Sample.tree
              "/srv/www/img/logo.png" Sample.logo)
    as (names & _ & _ & _ & H & _).
  - reflexivity.
  - reflexivity.
  - reflexivity.
  - apply list_elem_of_In. vm_compute. tauto.
  - exists names. exact H.
Defined.

Lemma consecutive_requests_agree_on_pixel_bin :
  exists res again,
    handler Extended Sample.world (Sample.site false) (initial_state Extended)
            (Sample.get "/pixel.bin") = Some res /\
    handler Extended Sample.world (Sample.site false) (state res)
            (Sample.get "/pixel.bin") = Some again /\
    calls again = calls res.
Proof.
  destruct (handler Extended Sample.world (Sample.site false)
              (initial_state Extended) (Sample.get "/pixel.bin"))
    as [res|] eqn:E; [|vm_compute in E; discriminate].
  destruct (consecutive_requests_agree Extended Sample.world
              (Sample.site false) (or_introl eq_refl)
              (initial_state Extended) (Sample.get "/pixel.bin") res E)
    as (again & H1 & H2).
  exists res, again. split; [reflexivity|]. split; [exact H1|exact H2].
Defined.

Lemma main_go_sends_no_type_for_the_logo :
  exists res,
    attempt MainGo Sample.world (Sample.site false) (initial_state MainGo)
            MethodGet "/srv/www/logo.png" = Return res /\
    calls res = respond MethodGet "" Sample.logo /\
    types (state res) !! ".png" = Some "image/png".
Proof.
  destruct (main_go_sends_no_type_for_an_unknown_extension Sample.world
              (Sample.site false) (initial_state MainGo) MethodGet
              "/srv/www/logo.png" Sample.logo) as (res & H1 & H2 & _ & H3).
  - reflexivity.
  - reflexivity.
  - reflexivity.
  - exists res. split; [exact H1|]. split; [exact H2|].
    apply H3; vm_compute; discriminate.
Defined.
